(** * wpsite-cli: the bidirectional wp-content synchronisation engine

    A shallow embedding of the sync engine of [src/commands/dev.js]
    (class [SyncManager], [handleFileChange], [scheduleSync], [performSync],
    [isFileStable], [getSyncPaths], [initializeFileHashes]) together with an
    explicit model of the part of the Node.js platform the engine talks to:
    the file system, the wall clock, the timer queue and the console.

    JavaScript runs every callback to completion before the next one starts,
    so one callback (a watcher event, a timer firing, one stretch of an
    [async] function between two [await]s) is one atomic transition of the
    [World]; other processes change the disk between transitions.

    The file has three parts: the definitions (platform, file system, engine,
    event loop, and the predicates the statements use), the properties,
    proved for every platform, and the properties evaluated on one concrete
    session. *)

From stdpp Require Import gmap strings list fin_maps.
From Stdlib Require Import ZArith Ascii.

Local Open Scope string_scope.
Local Open Scope Z_scope.

(** ** JavaScript values that flow through the fingerprint store *)

(** [getFileHash] returns [null] or a hex string; [Map.prototype.get] returns
    [undefined] for a missing key. *)
Inductive jsval :=
| JUndefined
| JNull
| JStr (s : string).

#[global] Instance jsval_eq_dec : EqDecision jsval.
Proof. solve_decision. Defined.

(** [a === b] on these values. *)
Definition strict_eq (a b : jsval) : bool := bool_decide (a = b).

(** [if (v)]: [undefined], [null] and the empty string are falsy. *)
Definition truthy (v : jsval) : bool :=
  match v with
  | JStr s => negb (String.eqb s "")
  | _ => false
  end.

(** [Map.prototype.get] on a map whose values are [jsval]s. *)
Definition Map_get (m : gmap string jsval) (k : string) : jsval :=
  default JUndefined (m !! k).

(** The two values of the [direction] string. *)
Inductive direction := SourceToTarget | TargetToSource.

#[global] Instance direction_eq_dec : EqDecision direction.
Proof. solve_decision. Defined.

Definition direction_str (d : direction) : string :=
  match d with
  | SourceToTarget => "source-to-target"
  | TargetToSource => "target-to-source"
  end.

(** Results of operations that may throw. *)
Inductive exn (A : Type) :=
| Ok (a : A)
| Throw (msg : string).
Arguments Ok {A} a.
Arguments Throw {A} msg.

(** ** The platform: what [crypto] and [path] compute

    Neither library is part of the repository, so the engine is verified for
    every implementation of this interface. *)
Class Platform := {
  (** [crypto.createHash("md5").update(content).digest("hex")] *)
  md5 : string -> string;
  (** [path.resolve(p)] *)
  path_resolve : string -> string;
  (** [path.resolve(base, rel)] *)
  path_resolve2 : string -> string -> string;
  (** [path.relative(from, to)] *)
  path_relative : string -> string -> string;
  (** [path.dirname(p)] *)
  path_dirname : string -> string;
  (** [process.cwd()] *)
  process_cwd : string
}.

(** A reference implementation for absolute, normalised POSIX paths, used to
    run the engine on concrete inputs. The stand-in digest has the length of
    a hex MD5 digest. *)
Module Posix.

Fixpoint fit (n : nat) (s : string) : string :=
  match n with
  | O => ""
  | S n' =>
      match s with
      | EmptyString => String "0"%char (fit n' "")
      | String c s' => String c (fit n' s')
      end
  end.

Definition digest (content : string) : string := fit 32 content.

Fixpoint last_slash (s : string) : option nat :=
  match s with
  | EmptyString => None
  | String c s' =>
      match last_slash s' with
      | Some i => Some (S i)
      | None => if Ascii.eqb c "/"%char then Some O else None
      end
  end.

Definition dirname (p : string) : string :=
  match last_slash p with
  | Some O => "/"
  | Some i => String.substring O i p
  | None => "."
  end.

Definition relative (from to : string) : string :=
  String.substring (S (String.length from))
    (String.length to - S (String.length from))%nat to.

Definition platform : Platform := {|
  md5 := digest;
  path_resolve := fun p => p;
  path_resolve2 := fun base rel => base ++ "/" ++ rel;
  path_relative := relative;
  path_dirname := dirname;
  process_cwd := "/proj"
|}.

End Posix.

(** ** The file system *)

(** The two fields of [fs.Stats] the engine reads: [size] and
    [mtime.getTime()]. *)
Record Stats := { st_size : Z; st_mtime : Z }.

#[global] Instance Stats_eq_dec : EqDecision Stats.
Proof. solve_decision. Defined.

Inductive node :=
| File (content : string) (mtimeMs : Z) (readable : bool)
| Dir (mtimeMs : Z).

#[global] Instance node_eq_dec : EqDecision node.
Proof. solve_decision. Defined.

Abbreviation FS := (gmap string node).

Module fs.

Definition existsSync (disk : FS) (p : string) : bool :=
  bool_decide (is_Some (disk !! p)).

Definition statSync (disk : FS) (p : string) : exn Stats :=
  match disk !! p with
  | Some (File content m _) =>
      Ok {| st_size := Z.of_nat (String.length content); st_mtime := m |}
  | Some (Dir m) => Ok {| st_size := 4096; st_mtime := m |}
  | None => Throw "ENOENT"
  end.

Definition readFileSync (disk : FS) (p : string) : exn string :=
  match disk !! p with
  | Some (File content _ true) => Ok content
  | Some (File _ _ false) => Throw "EACCES"
  | Some (Dir _) => Throw "EISDIR"
  | None => Throw "ENOENT"
  end.

(** [fs.mkdirSync(dir, { recursive: true })]. Missing ancestors are created
    by the platform and are not tracked individually; the call fails when
    the parent is a file. *)
Definition mkdirSync `{Platform} (disk : FS) (now : Z) (dir : string)
  : exn FS :=
  match disk !! dir with
  | None =>
      match disk !! path_dirname dir with
      | Some (File _ _ _) => Throw "ENOTDIR"
      | _ => Ok (<[dir := Dir now]> disk)
      end
  | Some (Dir _) => Ok disk
  | Some (File _ _ _) => Throw "EEXIST"
  end.

(** [fs.copyFileSync(src, dest)]: the source must be a readable file, the
    destination's directory must exist and the destination must not be a
    directory; copying a file onto itself succeeds and changes nothing. *)
Definition copyFileSync `{Platform} (disk : FS) (now : Z) (src dest : string)
  : exn FS :=
  match disk !! src with
  | Some (File content _ true) =>
      if bool_decide (src = dest) then Ok disk else
      match disk !! path_dirname dest with
      | Some (Dir _) =>
          match disk !! dest with
          | Some (Dir _) => Throw "EISDIR"
          | _ => Ok (<[dest := File content now true]> disk)
          end
      | _ => Throw "ENOENT"
      end
  | Some (File _ _ false) => Throw "EACCES"
  | Some (Dir _) => Throw "EISDIR"
  | None => Throw "ENOENT"
  end.

End fs.

(** ** Engine state *)

(** [class SyncManager]: the five collections and the two roots. The values
    of [pendingOperations] are timer handles. *)
Record SyncManager := mkSyncManager {
  sourcePath : string;
  targetPath : string;
  fileHashes : gmap string jsval;
  syncingFiles : gset string;
  pendingOperations : gmap string nat;
  lastSyncTime : gmap string Z;
  recentlySynced : gset string
}.

(** The local variables of a [performSync] call that is suspended at an
    [await] inside [isFileStable]. *)
Record frame := mkFrame {
  fr_file : string;          (* normalizedFilePath *)
  fr_direction : direction;
  fr_source : string;        (* sourcePath, the file that is read *)
  fr_target : string         (* targetPath, the file that is written *)
}.

(** The three [await new Promise(resolve => setTimeout(resolve, ms))] of
    [isFileStable], i.e. the points where a probe can be woken up. *)
Inductive wake :=
| WakeEmpty                    (* after the 500ms wait for a zero-size file *)
| WakeSettle (stats1 : Stats)  (* after the 500ms wait between two stats *)
| WakeRetry.                   (* after the 1000ms wait between attempts *)

(** Every closure the engine hands to [setTimeout]. *)
Inductive callback :=
| CbUnlock (filePath : string)       (* () => this.unlockFile(filePath) *)
| CbForget (filePath : string)       (* () => this.recentlySynced.delete(filePath) *)
| CbDebounce (filePath : string) (d : direction) (key : string)
| CbResume (fr : frame) (k : wake) (attempt : nat).

Record timer := mkTimer { due : Z; cb : callback }.

#[global] Instance frame_eq_dec : EqDecision frame.
Proof. solve_decision. Defined.
#[global] Instance wake_eq_dec : EqDecision wake.
Proof. solve_decision. Defined.
#[global] Instance callback_eq_dec : EqDecision callback.
Proof. solve_decision. Defined.
#[global] Instance timer_eq_dec : EqDecision timer.
Proof. solve_decision. Defined.

(** Lines printed by the engine. *)
Inductive line :=
| LogSynced (directionText relativePath : string)
| LogError (message : string).

Record World := mkWorld {
  disk : FS;
  clock : Z;                   (* Date.now() *)
  timers : gmap nat timer;     (* outstanding setTimeout handles *)
  next_timer : nat;
  mgr : SyncManager;
  console : list line
}.

Definition with_disk (d : FS) (w : World) : World :=
  mkWorld d (clock w) (timers w) (next_timer w) (mgr w) (console w).
Definition with_clock (t : Z) (w : World) : World :=
  mkWorld (disk w) t (timers w) (next_timer w) (mgr w) (console w).
Definition with_timers (ts : gmap nat timer) (w : World) : World :=
  mkWorld (disk w) (clock w) ts (next_timer w) (mgr w) (console w).
Definition with_mgr (m : SyncManager) (w : World) : World :=
  mkWorld (disk w) (clock w) (timers w) (next_timer w) m (console w).

Definition with_fileHashes (h : gmap string jsval) (m : SyncManager) :=
  mkSyncManager (sourcePath m) (targetPath m) h (syncingFiles m)
    (pendingOperations m) (lastSyncTime m) (recentlySynced m).
Definition with_syncingFiles (s : gset string) (m : SyncManager) :=
  mkSyncManager (sourcePath m) (targetPath m) (fileHashes m) s
    (pendingOperations m) (lastSyncTime m) (recentlySynced m).
Definition with_pendingOperations (p : gmap string nat) (m : SyncManager) :=
  mkSyncManager (sourcePath m) (targetPath m) (fileHashes m) (syncingFiles m)
    p (lastSyncTime m) (recentlySynced m).
Definition with_lastSyncTime (l : gmap string Z) (m : SyncManager) :=
  mkSyncManager (sourcePath m) (targetPath m) (fileHashes m) (syncingFiles m)
    (pendingOperations m) l (recentlySynced m).
Definition with_recentlySynced (s : gset string) (m : SyncManager) :=
  mkSyncManager (sourcePath m) (targetPath m) (fileHashes m) (syncingFiles m)
    (pendingOperations m) (lastSyncTime m) s.

(** [setTimeout(cb, ms)] returns a fresh handle; [clearTimeout(id)] removes
    the timer if it is still outstanding. *)
Definition setTimeout (c : callback) (ms : Z) (w : World) : nat * World :=
  (next_timer w,
   mkWorld (disk w) (clock w)
     (<[next_timer w := mkTimer (clock w + ms) c]> (timers w))
     (S (next_timer w)) (mgr w) (console w)).

Definition clearTimeout (id : nat) (w : World) : World :=
  with_timers (delete id (timers w)) w.

Definition console_log (l : line) (w : World) : World :=
  mkWorld (disk w) (clock w) (timers w) (next_timer w) (mgr w)
    (console w ++ [l]).

(** ** The engine *)

Section Engine.
Context {platform : Platform}.

(** *** Stability prober: [isFileStable]

    The body of the [for] loop runs on the disk as it is when the function
    is entered or woken up; at an [await] it stops with [Await], carrying the
    delay, the place to resume and the loop counter [attempt]. *)
Inductive probe :=
| Return (stable : bool)
| Await (ms : Z) (k : wake) (attempt : nat).

(** After the [try]/[catch] of one iteration: [if (attempt < maxAttempts)]
    wait a second; otherwise [attempt] is [maxAttempts], so [attempt++] makes
    the loop test fail and the final [return false] is reached. *)
Definition after_attempt (maxAttempts attempt : nat) : probe :=
  if bool_decide (attempt < maxAttempts)%nat
  then Await 1000 WakeRetry attempt
  else Return false.

(** One iteration from its first statement up to its first [await]. *)
Definition attempt_body (d : FS) (filePath : string) (maxAttempts attempt : nat)
  : probe :=
  if negb (fs.existsSync d filePath) then Return false else
  match fs.statSync d filePath with
  | Throw _ => after_attempt maxAttempts attempt           (* catch *)
  | Ok stats1 =>
      if st_size stats1 =? 0
      then Await 500 WakeEmpty attempt
      else Await 500 (WakeSettle stats1) attempt
  end.

(** The loop test [attempt <= maxAttempts]. *)
Definition loop_head (d : FS) (filePath : string) (maxAttempts attempt : nat)
  : probe :=
  if bool_decide (attempt <= maxAttempts)%nat
  then attempt_body d filePath maxAttempts attempt
  else Return false.

(** Entering the function: [let attempt = 1]. *)
Definition isFileStable_start (d : FS) (filePath : string) (maxAttempts : nat)
  : probe :=
  loop_head d filePath maxAttempts 1.

(** Waking up from an [await] on the disk [d]. [continue] and the end of the
    loop body both go to [attempt++] and the loop test. *)
Definition isFileStable_wake (d : FS) (filePath : string) (maxAttempts : nat)
    (k : wake) (attempt : nat) : probe :=
  match k with
  | WakeEmpty => loop_head d filePath maxAttempts (S attempt)
  | WakeSettle stats1 =>
      if negb (fs.existsSync d filePath) then Return false else
      match fs.statSync d filePath with
      | Throw _ => after_attempt maxAttempts attempt       (* catch *)
      | Ok stats2 =>
          if (st_size stats1 =? st_size stats2)
             && (st_mtime stats1 =? st_mtime stats2)
          then Return true
          else after_attempt maxAttempts attempt
      end
  | WakeRetry => loop_head d filePath maxAttempts (S attempt)
  end.

(** The whole call against the successive states of the disk: the head of
    [snaps] is the disk at the call, every further element the disk at the
    next wake-up. The result is the returned boolean with the milliseconds
    waited, or [None] when the snapshots run out before the call returns. *)
Fixpoint probe_run (filePath : string) (maxAttempts : nat) (p : probe)
    (waited : Z) (snaps : list FS) : option (bool * Z) :=
  match p with
  | Return b => Some (b, waited)
  | Await ms k attempt =>
      match snaps with
      | [] => None
      | d :: rest =>
          probe_run filePath maxAttempts
            (isFileStable_wake d filePath maxAttempts k attempt)
            (waited + ms) rest
      end
  end.

Definition isFileStable (snaps : list FS) (filePath : string)
    (maxAttempts : nat) : option (bool * Z) :=
  match snaps with
  | [] => None
  | d :: rest =>
      probe_run filePath maxAttempts
        (isFileStable_start d filePath maxAttempts) 0 rest
  end.

(** *** [class SyncManager] *)

Definition new_SyncManager (source target : string) : SyncManager :=
  mkSyncManager source target ∅ ∅ ∅ ∅ ∅.

Definition getFileHash (d : FS) (filePath : string) : jsval :=
  if negb (fs.existsSync d filePath) then JNull else
  match fs.readFileSync d filePath with
  | Ok content => JStr (md5 content)
  | Throw _ => JNull                                       (* catch *)
  end.

Definition hasFileChanged (filePath : string) (w : World) : bool :=
  let currentHash := getFileHash (disk w) filePath in
  let storedHash := Map_get (fileHashes (mgr w)) filePath in
  negb (strict_eq currentHash storedHash) && negb (strict_eq currentHash JNull).

Definition lockFile (filePath : string) (w : World) : World :=
  let m := mgr w in
  let m := with_syncingFiles ({[filePath]} ∪ syncingFiles m) m in
  let m := with_recentlySynced ({[filePath]} ∪ recentlySynced m) m in
  snd (setTimeout (CbUnlock filePath) 10000 (with_mgr m w)).

Definition unlockFile (filePath : string) (w : World) : World :=
  let m := mgr w in
  let m := with_syncingFiles (syncingFiles m ∖ {[filePath]}) m in
  snd (setTimeout (CbForget filePath) 5000 (with_mgr m w)).

Definition isFileLocked (filePath : string) (w : World) : bool :=
  bool_decide (filePath ∈ syncingFiles (mgr w))
  || bool_decide (filePath ∈ recentlySynced (mgr w)).

Definition updateFileHash (filePath : string) (w : World) : World :=
  let hash := getFileHash (disk w) filePath in
  if truthy hash then
    let m := mgr w in
    let m := with_fileHashes (<[filePath := hash]> (fileHashes m)) m in
    let m := with_lastSyncTime (<[filePath := clock w]> (lastSyncTime m)) m in
    with_mgr m w
  else w.

(** Named [sourcePath]/[targetPath] in the source; [src]/[tgt] here because
    the record fields carry those names. *)
Definition updateRelatedHashes (src tgt : string) (w : World) : World :=
  let sourceHash := getFileHash (disk w) src in
  let targetHash := getFileHash (disk w) tgt in
  if truthy sourceHash && truthy targetHash && strict_eq sourceHash targetHash
  then
    let m := mgr w in
    let m := with_fileHashes (<[src := sourceHash]> (fileHashes m)) m in
    let m := with_fileHashes (<[tgt := targetHash]> (fileHashes m)) m in
    let m := with_lastSyncTime (<[src := clock w]> (lastSyncTime m)) m in
    let m := with_lastSyncTime (<[tgt := clock w]> (lastSyncTime m)) m in
    with_mgr m w
  else w.

(** [lastSync && (Date.now() - lastSync < thresholdMs)] used as a condition:
    a missing entry ([undefined]) and the number 0 are falsy. *)
Definition wasRecentlyModified (filePath : string) (thresholdMs : Z)
    (w : World) : bool :=
  match lastSyncTime (mgr w) !! filePath with
  | None => false
  | Some lastSync => negb (lastSync =? 0) && (clock w - lastSync <? thresholdMs)
  end.

Definition cleanup (w : World) : World :=
  let w := map_fold (fun _ timeout acc => clearTimeout timeout acc) w
             (pendingOperations (mgr w)) in
  let m := mgr w in
  let m := with_pendingOperations ∅ m in
  let m := with_syncingFiles ∅ m in
  let m := with_recentlySynced ∅ m in
  with_mgr m w.

(** *** Code that may throw: a state-and-exception monad over the [World] *)

Definition M (A : Type) : Type := World -> exn A * World.

Definition ret {A} (a : A) : M A := fun w => (Ok a, w).

Definition bind {A B} (c : M A) (k : A -> M B) : M B := fun w =>
  match c w with
  | (Ok a, w') => k a w'
  | (Throw e, w') => (Throw e, w')
  end.

Definition seq {A B} (c : M A) (k : M B) : M B := bind c (fun _ => k).

Declare Scope M_scope.
Delimit Scope M_scope with M.
Notation "c ;; k" := (seq c k)
  (at level 100, k at level 200, right associativity) : M_scope.

(** A statement that cannot throw. *)
Definition exec_stmt (f : World -> World) : M unit := fun w => (Ok tt, f w).

(** A file-system call that replaces the disk or throws. *)
Definition fs_call (op : FS -> Z -> exn FS) : M unit := fun w =>
  match op (disk w) (clock w) with
  | Ok d => (Ok tt, with_disk d w)
  | Throw e => (Throw e, w)
  end.

(** How a stretch of [performSync] ends. *)
Inductive outcome :=
| Blocked                    (* [return] at the lock check *)
| Unstable                   (* [return] after [isFileStable] said no *)
| Unchanged                  (* [return] after [hasFileChanged] said no *)
| Synced                     (* the [try] block ran to its end *)
| Failed (message : string)  (* the [catch] block ran *)
| Waiting (id : nat).        (* suspended at an [await]; [id] wakes it up *)

(** [try { body } catch (error) { handler } finally { finalizer }] around a
    body that may stop at an [await]. A suspended body leaves the statement
    unfinished; an exception of the handler or of the finalizer escapes. *)
Definition try_catch_finally (body : M outcome) (handler : string -> M outcome)
    (finalizer : M unit) : M outcome := fun w =>
  match body w with
  | (Ok (Waiting id), w1) => (Ok (Waiting id), w1)
  | (r, w1) =>
      let '(r', w2) :=
        match r with
        | Ok o => (Ok o, w1)
        | Throw e => handler e w1
        end in
      match finalizer w2 with
      | (Ok _, w3) => (r', w3)
      | (Throw e, w3) => (Throw e, w3)
      end
  end.

(** *** [getSyncPaths] *)

Definition getSyncPaths (filePath : string) (d : direction) (w : World)
  : string * string :=
  let normalizedFilePath := path_resolve filePath in
  let normalizedSourcePath := path_resolve (sourcePath (mgr w)) in
  let normalizedTargetPath := path_resolve (targetPath (mgr w)) in
  match d with
  | SourceToTarget =>
      let relativePath := path_relative normalizedSourcePath normalizedFilePath in
      (normalizedFilePath, path_resolve2 normalizedTargetPath relativePath)
  | TargetToSource =>
      let relativePath := path_relative normalizedTargetPath normalizedFilePath in
      (normalizedFilePath, path_resolve2 normalizedSourcePath relativePath)
  end.

(** *** [performSync] *)

(** The [try] block from the change check to its end. *)
Definition copy_and_record (fr : frame) : M outcome := fun w =>
  if negb (hasFileChanged (fr_source fr) w) then (Ok Unchanged, w) else
  let targetDir := path_dirname (fr_target fr) in
  let relativePath := path_relative process_cwd (fr_source fr) in
  let directionText :=
    match fr_direction fr with
    | SourceToTarget => "Local→Contenedor"
    | TargetToSource => "Contenedor→Local"
    end in
  (((if negb (fs.existsSync (disk w) targetDir)
    then fs_call (fun d now => fs.mkdirSync d now targetDir)
    else ret tt) ;;
   fs_call (fun d now => fs.copyFileSync d now (fr_source fr) (fr_target fr)) ;;
   exec_stmt (updateRelatedHashes (fr_source fr) (fr_target fr)) ;;
   exec_stmt (console_log (LogSynced directionText relativePath)) ;;
   ret Synced)%M : M outcome) w.

(** [if (!await isFileStable(sourcePath)) return;] and what follows, given
    what the probe did: either it stopped at an [await], and the call is
    parked on a timer, or it returned. *)
Definition after_probe (fr : frame) (p : probe) : M outcome := fun w =>
  match p with
  | Await ms k attempt =>
      let '(id, w') := setTimeout (CbResume fr k attempt) ms w in
      (Ok (Waiting id), w')
  | Return false => (Ok Unstable, w)
  | Return true => copy_and_record fr w
  end.

Definition on_error (message : string) : M outcome :=
  (exec_stmt (console_log (LogError message)) ;;
   ret (Failed message))%M.

Definition release_later (normalizedFilePath : string) : M unit :=
  exec_stmt (fun w => snd (setTimeout (CbUnlock normalizedFilePath) 1000 w)).

(** The call itself: everything up to the first [await] that really waits,
    or to the end when there is none. [isFileStable] is called with its
    default [maxAttempts = 3]. *)
Definition performSync (filePath : string) (d : direction) : M outcome :=
  let normalizedFilePath := path_resolve filePath in
  try_catch_finally
    (fun w =>
       if isFileLocked normalizedFilePath w then (Ok Blocked, w) else
       let w := lockFile normalizedFilePath w in
       let '(src, tgt) := getSyncPaths normalizedFilePath d w in
       let fr := mkFrame normalizedFilePath d src tgt in
       after_probe fr (isFileStable_start (disk w) src 3) w)
    on_error
    (release_later normalizedFilePath).

(** The call woken up by the timer of one of its [await]s. *)
Definition performSync_resume (fr : frame) (k : wake) (attempt : nat)
  : M outcome :=
  try_catch_finally
    (fun w =>
       after_probe fr (isFileStable_wake (disk w) (fr_source fr) 3 k attempt) w)
    on_error
    (release_later (fr_file fr)).

(** *** [scheduleSync] and [handleFileChange] *)

Definition sync_key (filePath : string) (d : direction) : string :=
  filePath ++ "-" ++ direction_str d.

Definition sync_delay (d : direction) : Z :=
  match d with
  | TargetToSource => 4000
  | SourceToTarget => 2000
  end.

Definition scheduleSync (filePath : string) (d : direction) (w : World)
  : World :=
  let key := sync_key filePath d in
  let w :=
    match pendingOperations (mgr w) !! key with
    | Some timeout => clearTimeout timeout w
    | None => w
    end in
  let delay := sync_delay d in
  let '(timeout, w) := setTimeout (CbDebounce filePath d key) delay w in
  with_mgr
    (with_pendingOperations (<[key := timeout]> (pendingOperations (mgr w)))
       (mgr w)) w.

Definition handleFileChange (filePath : string) (w : World) : World :=
  let normalizedPath := path_resolve filePath in
  if isFileLocked normalizedPath w then w else
  if wasRecentlyModified normalizedPath 3000 w then w else
  if negb (hasFileChanged normalizedPath w) then w else
  let isSourceFile := String.prefix (sourcePath (mgr w)) normalizedPath in
  let d := if isSourceFile then SourceToTarget else TargetToSource in
  scheduleSync normalizedPath d w.

(** *** [initializeFileHashes] and [setupUnifiedWatcher]

    [files] is the result of the directory walk over both roots
    ([...sourceFiles, ...targetFiles]). *)
Definition initializeFileHashes (files : list string) (w : World) : World :=
  fold_left (fun w file => updateFileHash file w) files w.

Definition setupUnifiedWatcher (source target : string) (files : list string)
    (d : FS) (now : Z) : World :=
  initializeFileHashes files
    (mkWorld d now ∅ 0%nat (new_SyncManager source target) []).

(** *** The event loop

    The debounce closure calls [performSync] without awaiting it and then
    deletes the key. When [performSync] ends without a real wait, its
    [finally] block runs as a microtask right after the deletion; the two
    touch different parts of the world, so the order cannot be observed. *)

Definition run_callback (c : callback) (w : World) : World :=
  match c with
  | CbUnlock filePath => unlockFile filePath w
  | CbForget filePath =>
      with_mgr
        (with_recentlySynced (recentlySynced (mgr w) ∖ {[filePath]}) (mgr w)) w
  | CbDebounce filePath d key =>
      let w := snd (performSync filePath d w) in
      with_mgr
        (with_pendingOperations (delete key (pendingOperations (mgr w)))
           (mgr w)) w
  | CbResume fr k attempt => snd (performSync_resume fr k attempt w)
  end.

(** What can happen between two callbacks, and the callbacks themselves. *)
Inductive action :=
| Tick (dt : Z)              (* time passes *)
| External (d : FS)          (* other processes leave the disk as [d] *)
| Watch (filePath : string)  (* the watcher reports "add" or "change" *)
| Fire (id : nat)            (* a timer that is due runs *)
| Sigint.                    (* the SIGINT handler calls [cleanup()] *)

Definition exec (a : action) (w : World) : World :=
  match a with
  | Tick dt => if 0 <=? dt then with_clock (clock w + dt) w else w
  | External d => with_disk d w
  | Watch filePath => handleFileChange filePath w
  | Fire id =>
      match timers w !! id with
      | Some t =>
          if due t <=? clock w
          then run_callback (cb t) (clearTimeout id w)
          else w
      | None => w
      end
  | Sigint => cleanup w
  end.

Definition run (tr : list action) (w : World) : World :=
  fold_left (fun w a => exec a w) tr w.

(** *** One [performSync] call followed to its end

    The call alone with the disk: at every [await] time advances to the
    timer, other processes leave the disk as the next snapshot, and the call
    is woken up. *)
Definition wake_up (id : nat) (d : FS) (w : World) : exn outcome * World :=
  match timers w !! id with
  | Some (mkTimer t (CbResume fr k attempt)) =>
      performSync_resume fr k attempt
        (clearTimeout id (with_disk d (with_clock (Z.max (clock w) t) w)))
  | _ => (Ok (Waiting id), w)
  end.

Fixpoint performSync_settle (snaps : list FS) (r : exn outcome * World)
  : exn outcome * World :=
  match r, snaps with
  | (Ok (Waiting id), w), d :: rest => performSync_settle rest (wake_up id d w)
  | _, _ => r
  end.

(** *** Observers used in the statements *)

(** Every stored fingerprint is a non-empty digest of some content. *)
Definition store_sound (w : World) : Prop :=
  forall p v, fileHashes (mgr w) !! p = Some v ->
    exists content, v = JStr (md5 content) /\ md5 content <> "".


(** Milliseconds that pass along [tr]. *)
Definition elapsed (tr : list action) : Z :=
  fold_right
    (fun a acc => match a with Tick dt => Z.max 0 dt + acc | _ => acc end)
    0 tr.

(** [a] makes the debounce timer of [(p, d)] run, i.e. hands [(p, d)] to
    [performSync]. *)
Definition hands_off (p : string) (d : direction) (a : action) (w : World)
  : bool :=
  match a with
  | Fire id =>
      match timers w !! id with
      | Some t =>
          (due t <=? clock w)
          && bool_decide (cb t = CbDebounce p d (sync_key p d))
      | None => false
      end
  | _ => false
  end.

Fixpoint handoffs (p : string) (d : direction) (tr : list action) (w : World)
  : nat :=
  match tr with
  | [] => O
  | a :: tr' =>
      ((if hands_off p d a w then 1 else 0) + handoffs p d tr' (exec a w))%nat
  end.




(** The map [pend] and the outstanding debounce timers describe each other,
    and timer handles are fresh. *)
Record pending_agrees (pend : gmap string nat) (w : World) : Prop := {
  pc_pending : forall key id, pend !! key = Some id ->
    exists p d t, timers w !! id = Some (mkTimer t (CbDebounce p d key));
  pc_timer : forall id t p d key,
    timers w !! id = Some (mkTimer t (CbDebounce p d key)) ->
    pend !! key = Some id;
  pc_fresh : forall id, (next_timer w <= id)%nat -> timers w !! id = None
}.

Definition pending_consistent (w : World) : Prop :=
  pending_agrees (pendingOperations (mgr w)) w.

(** [c] is not a debounce closure. *)
Definition plain (c : callback) : Prop :=
  match c with
  | CbDebounce _ _ _ => False
  | _ => True
  end.

(** [w'] has the timers of [w] and possibly further ones, all with fresh
    handles and none of them a debounce timer; the clock and the pending map
    are those of [w]. *)
Record adds_plain_timers (w w' : World) : Prop := {
  apt_next : (next_timer w <= next_timer w')%nat;
  apt_old : forall id, (id < next_timer w)%nat -> timers w' !! id = timers w !! id;
  apt_new : forall id t, (next_timer w <= id)%nat ->
    timers w' !! id = Some t ->
    timers w !! id = Some t \/ ((id < next_timer w')%nat /\ plain (cb t));
  apt_clock : clock w' = clock w;
  apt_pending : pendingOperations (mgr w') = pendingOperations (mgr w)
}.

(** What the timer queue and the debouncer read of a world. *)
Definition timer_view (w : World) : gmap nat timer * nat * Z * gmap string nat :=
  (timers w, next_timer w, clock w, pendingOperations (mgr w)).


(** An upper bound on the wake-ups a probe still needs. *)
Definition wakes_left (maxAttempts : nat) (p : probe) : nat :=
  match p with
  | Return _ => 0
  | Await _ (WakeSettle _) attempt => 2 * (maxAttempts - attempt) + 1
  | Await _ _ attempt => Nat.max 1 (2 * (maxAttempts - attempt))
  end%nat.

(** The store after both entries of a pair were written with digest [h]. *)
Definition record_pair (a b h : string) (w : World) : World :=
  with_mgr
    (with_lastSyncTime
       (<[b := clock w]> (<[a := clock w]> (lastSyncTime (mgr w))))
       (with_fileHashes
          (<[b := JStr h]> (<[a := JStr h]> (fileHashes (mgr w))))
          (mgr w)))
    w.

(** The file at [p] exists and has size zero. *)
Definition zero_size (p : string) (d : FS) : Prop :=
  exists m r, d !! p = Some (File "" m r).


(** One stretch of [performSync] once the probe has answered [p]. *)
Definition stretch (fr : frame) (p : probe) : M outcome :=
  try_catch_finally (after_probe fr p) on_error (release_later (fr_file fr)).

(** The [finally] block. *)
Definition release (f : string) (w : World) : World :=
  snd (setTimeout (CbUnlock f) 1000 w).

(** The disk once the directory of [tgt] has been taken care of: either it
    was there, or [mkdirSync] has just created it. *)
Definition dir_ready (tgt : string) (w : World) (d1 : FS) : Prop :=
  d1 = disk w
  \/ (disk w !! path_dirname tgt = None
      /\ d1 = <[path_dirname tgt := Dir (clock w)]> (disk w)).

Definition synced_line (fr : frame) : line :=
  LogSynced
    match fr_direction fr with
    | SourceToTarget => "Local→Contenedor"
    | TargetToSource => "Contenedor→Local"
    end
    (path_relative process_cwd (fr_source fr)).

(** What the [try] block does from the change check on. *)
Inductive copy_effect (fr : frame) (w : World) : exn outcome -> World -> Prop :=
| ce_unchanged :
    hasFileChanged (fr_source fr) w = false ->
    copy_effect fr w (Ok Unchanged) w
| ce_synced d1 d2 :
    hasFileChanged (fr_source fr) w = true ->
    dir_ready (fr_target fr) w d1 ->
    fs.copyFileSync d1 (clock w) (fr_source fr) (fr_target fr) = Ok d2 ->
    copy_effect fr w (Ok Synced)
      (console_log (synced_line fr)
         (updateRelatedHashes (fr_source fr) (fr_target fr) (with_disk d2 w)))
| ce_failed d1 e :
    hasFileChanged (fr_source fr) w = true ->
    dir_ready (fr_target fr) w d1 ->
    copy_effect fr w (Throw e) (with_disk d1 w).

(** How one callback may change the disk and the two fingerprint maps. *)
Inductive store_step (w w' : World) : Prop :=
| ss_same :
    disk w' = disk w ->
    fileHashes (mgr w') = fileHashes (mgr w) ->
    lastSyncTime (mgr w') = lastSyncTime (mgr w) ->
    store_step w w'
| ss_mkdir dir :
    disk w !! dir = None ->
    disk w' = <[dir := Dir (clock w)]> (disk w) ->
    fileHashes (mgr w') = fileHashes (mgr w) ->
    lastSyncTime (mgr w') = lastSyncTime (mgr w) ->
    store_step w w'
| ss_sync src tgt d1 d2 :
    dir_ready tgt w d1 ->
    fs.copyFileSync d1 (clock w) src tgt = Ok d2 ->
    disk w' = d2 ->
    fileHashes (mgr w')
    = fileHashes (mgr (updateRelatedHashes src tgt (with_disk d2 w))) ->
    lastSyncTime (mgr w')
    = lastSyncTime (mgr (updateRelatedHashes src tgt (with_disk d2 w))) ->
    store_step w w'.

(** The disk and the two fingerprint maps are the same in [w] and [w']. *)
Definition same_store (w w' : World) : Prop :=
  disk w' = disk w
  /\ fileHashes (mgr w') = fileHashes (mgr w)
  /\ lastSyncTime (mgr w') = lastSyncTime (mgr w).

(** What the change detection and the copy read of a world. *)
Definition store_view (w : World) : FS * Z * gmap string jsval * gmap string Z :=
  (disk w, clock w, fileHashes (mgr w), lastSyncTime (mgr w)).

(** *** Further observers *)

(** What the probe result [pr] remembers of the disk [d0] it was computed
    on: a pending second [stat] carries the first one, taken on [d0] from a
    file of non-zero size; no result computed on one disk alone is [true]. *)
Definition stat_linked (p : string) (d0 : FS) (pr : probe) : Prop :=
  match pr with
  | Return b => b = false
  | Await _ (WakeSettle stats1) _ =>
      fs.statSync d0 p = Ok stats1 /\ st_size stats1 <> 0
  | Await _ _ _ => True
  end.

(** The waits of [isFileStable] are 500ms and 1000ms long. *)
Definition loop_wait (pr : probe) : Prop :=
  match pr with
  | Return _ => True
  | Await ms _ _ => ms = 500 \/ ms = 1000
  end.

(** An upper bound on the milliseconds a probe still waits. *)
Definition wait_budget (maxAttempts : nat) (pr : probe) : Z :=
  match pr with
  | Return _ => 0
  | Await ms (WakeSettle _) attempt =>
      ms + 1500 * Z.of_nat (maxAttempts - attempt)
  | Await ms _ attempt =>
      ms + (if bool_decide (attempt < maxAttempts)%nat
            then 1500 * Z.of_nat (maxAttempts - attempt) - 1000
            else 0)
  end.


(** The two lock sets of a world. *)
Definition lock_view (w : World) : gset string * gset string :=
  (syncingFiles (mgr w), recentlySynced (mgr w)).


(** [a] is an event of the file watcher. *)
Definition is_watch (a : action) : bool :=
  match a with
  | Watch _ => true
  | _ => false
  end.

(** The time stamps of the store: a path has a stamp exactly when it has a
    fingerprint, and every stamp was taken between [t0] and now. *)
Definition stamps_ok (t0 : Z) (w : World) : Prop :=
  t0 <= clock w
  /\ forall p,
       (lastSyncTime (mgr w) !! p = None <-> fileHashes (mgr w) !! p = None)
       /\ forall t, lastSyncTime (mgr w) !! p = Some t -> t0 <= t <= clock w.

(** [p] has a stamp, taken at [t] or later. *)
Definition stamped_since (p : string) (t : Z) (w : World) : Prop :=
  exists t', lastSyncTime (mgr w) !! p = Some t' /\ t <= t' <= clock w.

(** [p] is a file that can be read. *)
Definition readable_file (d : FS) (p : string) : Prop :=
  exists content m, d !! p = Some (File content m true).


(** *** [waitForWordPress]

    The promise of [waitForWordPress] and its closure [checkWordPress]. Each
    call of [checkWordPress] starts one [curl]; [curl] lists, call by call,
    whether the command ended with an error. The recursion follows the
    callbacks: a call whose command has not ended leaves the promise
    pending ([None]). [wp_waited] adds up the delays of the timers. *)

Inductive spinner_text :=
| SpReady                                   (* "Esperando a que WordPress esté listo..." *)
| SpWaiting (attempts maxAttempts : nat).   (* "Esperando WordPress... (a/m)" *)

Inductive wp_line :=
| LogSlow          (* "WordPress tardó más de lo esperado, pero continuando..." *)
| LogResponding.   (* "WordPress está respondiendo" *)

Record wp_state := mkWp {
  wp_attempts : nat;
  wp_spinner : spinner_text;
  wp_console : list wp_line;
  wp_waited : Z
}.

Fixpoint checkWordPress (maxAttempts : nat) (curl : list bool) (st : wp_state)
  : option wp_state :=
  match curl with
  | [] => None
  | error :: rest =>
      let attempts := S (wp_attempts st) in
      if error then
        if (maxAttempts <=? attempts)%nat then
          Some (mkWp attempts (wp_spinner st) (wp_console st ++ [LogSlow])
                  (wp_waited st))
        else
          checkWordPress maxAttempts rest
            (mkWp attempts (SpWaiting attempts maxAttempts) (wp_console st)
               (wp_waited st + 1000))
      else
        Some (mkWp attempts (wp_spinner st) (wp_console st ++ [LogResponding])
                (wp_waited st))
  end.

Definition waitForWordPress (curl : list bool) : option wp_state :=
  checkWordPress 30 curl (mkWp 0 SpReady [] 3000).


End Engine.

(** ** A concrete session

    A project under [/proj] on the reference platform: one stylesheet in the
    local tree, nothing yet in the container tree, no file hashed at start. *)
Module Demo.

Definition source : string := "/proj/wp-content".
Definition target : string := "/proj/wordpress/wp-content".
Definition css : string := "/proj/wp-content/style.css".
Definition css_copy : string := "/proj/wordpress/wp-content/style.css".

Definition disk0 : FS :=
  <[source := Dir 1]>
    (<[target := Dir 1]> (<[css := File "A" 5 true]> ∅)).

Definition boot : World :=
  setupUnifiedWatcher (platform := Posix.platform) source target [] disk0 100.

(** The watcher reports the stylesheet, the debounce timer runs after two
    seconds and [performSync] waits 500ms between its two [stat]s. *)
Definition to_probe : list action :=
  [Watch css; Tick 2000; Fire 0%nat; Tick 500].

(** The world in which the wake-up of the probe (timer 2) runs. *)
Definition before_copy : World :=
  clearTimeout 2 (run (platform := Posix.platform) to_probe boot).

Definition fr : frame := mkFrame css SourceToTarget css css_copy.

Definition stats1 : Stats := {| st_size := 1; st_mtime := 5 |}.

(** The world after the copy. *)
Definition after_copy : World :=
  (performSync_resume (platform := Posix.platform) fr (WakeSettle stats1) 1
     before_copy).2.

(** The world right after [performSync] has locked the file. *)
Definition locked : World :=
  run (platform := Posix.platform) [Watch css; Tick 2000; Fire 0%nat] boot.


(** The stylesheet while it is being created, and once it is written. *)
Definition empty : FS := {[ css := File "" 1 true ]}.
Definition full : FS := {[ css := File "A" 2 true ]}.

End Demo.

(** * Properties *)

Section Properties.
Context {platform : Platform}.

(** A hex MD5 digest has 32 characters. *)
Hypothesis md5_hex_length :
  forall content, String.length (md5 content) = 32%nat.

(** ** Properties of the fingerprint store *)

Lemma getFileHash_cases (d : FS) (p : string) :
  getFileHash d p = JNull \/ exists content, getFileHash d p = JStr (md5 content).
Proof.
  unfold getFileHash.
  destruct (fs.existsSync d p); simpl; [|by left].
  destruct (fs.readFileSync d p) as [content|msg]; [right; by exists content|by left].
Qed.

Lemma getFileHash_readable (d : FS) (p content : string) (m : Z) :
  d !! p = Some (File content m true) -> getFileHash d p = JStr (md5 content).
Proof.
  intros Hp. unfold getFileHash, fs.existsSync, fs.readFileSync. rewrite Hp.
  rewrite bool_decide_eq_true_2; [done|by eexists].
Qed.

Lemma getFileHash_present (d : FS) (p h : string) :
  getFileHash d p = JStr h ->
  exists content m, d !! p = Some (File content m true) /\ h = md5 content.
Proof.
  unfold getFileHash, fs.existsSync, fs.readFileSync. intros Hh.
  destruct (d !! p) as [[content m [|]|m]|] eqn:Hp;
    destruct (bool_decide _); simpl in Hh; try discriminate Hh.
  injection Hh as <-. by exists content, m.
Qed.

Lemma strict_eq_true (a b : jsval) : strict_eq a b = true <-> a = b.
Proof. unfold strict_eq. apply bool_decide_eq_true. Qed.

Lemma strict_eq_false (a b : jsval) : strict_eq a b = false <-> a <> b.
Proof. unfold strict_eq. apply bool_decide_eq_false. Qed.

Lemma hasFileChanged_absent (P : string) (w : World) :
  getFileHash (disk w) P = JNull -> hasFileChanged P w = false.
Proof. intros Hn. unfold hasFileChanged. rewrite Hn. apply andb_false_r. Qed.

Lemma hasFileChanged_present (P h : string) (w : World) :
  getFileHash (disk w) P = JStr h ->
  hasFileChanged P w
  = negb (bool_decide (fileHashes (mgr w) !! P = Some (JStr h))).
Proof.
  intros Hh. unfold hasFileChanged, Map_get. rewrite Hh.
  assert (Hs : strict_eq (JStr h) JNull = false) by (by apply strict_eq_false).
  rewrite Hs, andb_true_r. f_equal. unfold strict_eq.
  destruct (fileHashes (mgr w) !! P) as [v|]; simpl.
  - apply bool_decide_ext. split; [by intros <-|by intros [= ->]].
  - reflexivity.
Qed.

(** C7. [hasFileChanged P] answers true exactly when [getFileHash P] is a
    digest and the store does not hold that digest for [P]; when the hash is
    absent ([null]: the file is missing or cannot be read) the answer is
    false, whatever the store holds. *)
Theorem hasFileChanged_iff (P : string) (w : World) :
  (hasFileChanged P w = true <->
   exists h, getFileHash (disk w) P = JStr h
             /\ fileHashes (mgr w) !! P <> Some (JStr h))
  /\ match getFileHash (disk w) P with
     | JStr h =>
         hasFileChanged P w
         = negb (bool_decide (fileHashes (mgr w) !! P = Some (JStr h)))
     | JNull | JUndefined => hasFileChanged P w = false
     end.
Proof.
  destruct (getFileHash_cases (disk w) P) as [Hn|[content Hc]].
  - rewrite Hn. pose proof (hasFileChanged_absent P w Hn) as Hfalse. split.
    + rewrite Hfalse. split; [discriminate|].
      intros (h & Hh & _). discriminate Hh.
    + exact Hfalse.
  - rewrite Hc. pose proof (hasFileChanged_present P _ w Hc) as Hval.
    split; [|exact Hval].
    rewrite Hval, negb_true_iff, bool_decide_eq_false. split.
    + intros Hne. by exists (md5 content).
    + intros (h & Hh & Hne). by injection Hh as <-.
Qed.

(** C10. A path without an entry in the store whose content can be read is
    reported as changed. *)
Theorem hasFileChanged_unknown_path (P content : string) (m : Z) (w : World) :
  fileHashes (mgr w) !! P = None ->
  disk w !! P = Some (File content m true) ->
  hasFileChanged P w = true.
Proof.
  intros Hstore Hfile.
  rewrite (hasFileChanged_present P (md5 content)).
  - rewrite Hstore. by rewrite bool_decide_eq_false_2.
  - by eapply getFileHash_readable.
Qed.

Lemma md5_truthy (content : string) : truthy (JStr (md5 content)) = true.
Proof.
  simpl. apply negb_true_iff, String.eqb_neq. intros Heq.
  pose proof (md5_hex_length content) as Hlen. rewrite Heq in Hlen.
  discriminate Hlen.
Qed.

Lemma truthy_present (v : jsval) :
  truthy v = true -> exists s, v = JStr s /\ s <> "".
Proof.
  destruct v as [| |s]; simpl; try discriminate.
  intros Hs. exists s. split; [done|].
  by apply String.eqb_neq, negb_true_iff.
Qed.

(** Without any assumption on the digest: the pair is written only when both
    hashes are the same non-empty string, and otherwise nothing changes. *)
Lemma updateRelatedHashes_cases (a b : string) (w : World) :
  updateRelatedHashes a b w = w
  \/ exists h, h <> "" /\ getFileHash (disk w) a = JStr h
               /\ getFileHash (disk w) b = JStr h
               /\ updateRelatedHashes a b w = record_pair a b h w.
Proof.
  unfold updateRelatedHashes.
  destruct (truthy (getFileHash (disk w) a)) eqn:Ha; simpl; [|by left].
  destruct (truthy (getFileHash (disk w) b)) eqn:Hb; simpl; [|by left].
  destruct (strict_eq _ _) eqn:He; [|by left].
  apply strict_eq_true in He.
  apply truthy_present in Ha as (h & Hh & Hne).
  right. exists h. rewrite <- He, Hh. done.
Qed.

Lemma updateRelatedHashes_commit (a b h : string) (w : World) :
  getFileHash (disk w) a = JStr h ->
  getFileHash (disk w) b = JStr h ->
  updateRelatedHashes a b w = record_pair a b h w.
Proof.
  intros Ha Hb. unfold updateRelatedHashes. rewrite Ha, Hb.
  destruct (getFileHash_present _ _ _ Ha) as (content & m & _ & ->).
  rewrite md5_truthy. simpl.
  unfold strict_eq. rewrite bool_decide_eq_true_2 by done. done.
Qed.

(** C3. [updateRelatedHashes a b] recomputes both hashes. When both are
    present and equal it writes that digest and the current time for [a] and
    for [b]; when one is absent or they differ the world, and so the store,
    is left as it was. *)
Theorem updateRelatedHashes_commits_iff (a b : string) (w : World) :
  (forall h, getFileHash (disk w) a = JStr h ->
             getFileHash (disk w) b = JStr h ->
             updateRelatedHashes a b w = record_pair a b h w)
  /\ (~ (exists h, getFileHash (disk w) a = JStr h
                   /\ getFileHash (disk w) b = JStr h) ->
      updateRelatedHashes a b w = w).
Proof.
  split.
  - intros h. apply updateRelatedHashes_commit.
  - intros Hno.
    destruct (updateRelatedHashes_cases a b w) as [Hsame|(h & _ & Ha & Hb & _)];
      [done|].
    exfalso. apply Hno. by exists h.
Qed.

(** ** Properties of the stability prober *)

Lemma loop_head_zero_size (p : string) (maxAttempts attempt : nat) (e : FS) :
  zero_size p e -> (attempt <= maxAttempts)%nat ->
  loop_head e p maxAttempts attempt = Await 500 WakeEmpty attempt.
Proof.
  intros (m & r & He) Hle. unfold loop_head, attempt_body.
  rewrite bool_decide_eq_true_2 by done.
  unfold fs.existsSync, fs.statSync. rewrite He.
  rewrite bool_decide_eq_true_2 by (by eexists). done.
Qed.

Lemma loop_head_exhausted (p : string) (maxAttempts attempt : nat) (d : FS) :
  (maxAttempts < attempt)%nat -> loop_head d p maxAttempts attempt = Return false.
Proof.
  intros Hlt. unfold loop_head. rewrite bool_decide_eq_false_2 by lia. done.
Qed.

Lemma probe_run_return (p : string) (maxAttempts : nat) (b : bool) (waited : Z)
    (snaps : list FS) :
  probe_run p maxAttempts (Return b) waited snaps = Some (b, waited).
Proof. by destruct snaps. Qed.

(** C6 (as the code has it). A zero-size probe at attempt [attempt] waits
    500ms and goes on with attempt [attempt + 1]: it uses up one attempt of
    the budget and only skips the 1000ms pause between attempts. With the
    default budget of three, three zero-size probes in a row make
    [isFileStable] return false after 1500ms, whatever the file looks like
    afterwards. *)
Theorem isFileStable_zero_size_consumes_attempt
    (p : string) (maxAttempts attempt : nat) (e : FS) (rest : list FS)
    (waited : Z) :
  zero_size p e -> (attempt <= maxAttempts)%nat ->
  probe_run p maxAttempts (loop_head e p maxAttempts attempt) waited rest
  = match rest with
    | [] => None
    | d :: rest' =>
        probe_run p maxAttempts (loop_head d p maxAttempts (S attempt))
          (waited + 500) rest'
    end
  /\ forall e2 e3 d, zero_size p e2 -> zero_size p e3 ->
       isFileStable (e :: e2 :: e3 :: d :: rest) p 3 = Some (false, 1500).
Proof.
  intros He Hle. split.
  - rewrite (loop_head_zero_size p maxAttempts attempt e He Hle).
    destruct rest as [|d rest']; reflexivity.
  - intros e2 e3 d He2 He3. unfold isFileStable, isFileStable_start.
    rewrite (loop_head_zero_size p 3 1 e He) by lia. simpl.
    rewrite (loop_head_zero_size p 3 2 e2 He2) by lia. simpl.
    rewrite (loop_head_zero_size p 3 3 e3 He3) by lia. simpl.
    rewrite loop_head_exhausted by lia. apply probe_run_return.
Qed.

(** ** The structure of one stretch of [performSync] *)

Lemma performSync_resume_stretch (fr : frame) (k : wake) (attempt : nat)
    (w : World) :
  performSync_resume fr k attempt w
  = stretch fr (isFileStable_wake (disk w) (fr_source fr) 3 k attempt) w.
Proof. reflexivity. Qed.

Lemma performSync_stretch (P : string) (D : direction) (w : World) :
  performSync P D w
  = let f := path_resolve P in
    if isFileLocked f w then (Ok Blocked, release f w) else
    let w0 := lockFile f w in
    let fr := mkFrame f D (getSyncPaths f D w0).1 (getSyncPaths f D w0).2 in
    stretch fr (isFileStable_start (disk w0) (fr_source fr) 3) w0.
Proof.
  unfold performSync, stretch, try_catch_finally. simpl.
  destruct (isFileLocked (path_resolve P) w); [reflexivity|].
  destruct (getSyncPaths _ _ _) as [src tgt]. reflexivity.
Qed.

Lemma copy_and_record_unfold (fr : frame) (w : World) :
  copy_and_record fr w
  = if negb (hasFileChanged (fr_source fr) w) then (Ok Unchanged, w) else
    match
      (if negb (fs.existsSync (disk w) (path_dirname (fr_target fr)))
       then fs.mkdirSync (disk w) (clock w) (path_dirname (fr_target fr))
       else Ok (disk w))
    with
    | Throw e => (Throw e, w)
    | Ok d1 =>
        match fs.copyFileSync d1 (clock w) (fr_source fr) (fr_target fr) with
        | Throw e => (Throw e, with_disk d1 w)
        | Ok d2 =>
            (Ok Synced,
             console_log (synced_line fr)
               (updateRelatedHashes (fr_source fr) (fr_target fr)
                  (with_disk d2 w)))
        end
    end.
Proof.
  unfold copy_and_record, seq, bind, fs_call, exec_stmt, ret, synced_line.
  destruct (negb (hasFileChanged (fr_source fr) w)); [reflexivity|].
  destruct (negb (fs.existsSync (disk w) (path_dirname (fr_target fr)))).
  - destruct (fs.mkdirSync (disk w) (clock w) _) as [d1|e]; simpl;
      [|reflexivity].
    destruct (fs.copyFileSync d1 (clock w) _ _) as [d2|e]; reflexivity.
  - simpl.
    destruct (fs.copyFileSync (disk w) (clock w) _ _) as [d2|e]; simpl;
      [reflexivity|].
    by destruct w.
Qed.

Lemma mkdirSync_fresh (d d1 : FS) (now : Z) (dir : string) :
  fs.existsSync d dir = false ->
  fs.mkdirSync d now dir = Ok d1 ->
  d !! dir = None /\ d1 = <[dir := Dir now]> d.
Proof.
  unfold fs.existsSync, fs.mkdirSync. intros Hex%bool_decide_eq_false.
  destruct (d !! dir) as [n|] eqn:Hd; [exfalso; apply Hex; by eexists|].
  destruct (d !! path_dirname dir) as [[c m r|m]|]; intros [= <-]; done.
Qed.

Lemma copy_and_record_effect (fr : frame) (w : World) :
  copy_effect fr w (copy_and_record fr w).1 (copy_and_record fr w).2.
Proof.
  rewrite copy_and_record_unfold.
  destruct (hasFileChanged (fr_source fr) w) eqn:Hch; simpl;
    [|by constructor].
  destruct (fs.existsSync (disk w) (path_dirname (fr_target fr))) eqn:Hex; simpl.
  - destruct (fs.copyFileSync (disk w) (clock w) _ _) as [d2|e] eqn:Hcp; simpl.
    + apply (ce_synced fr w (disk w) d2); [done|by left|done].
    + apply ce_failed; [done|by left].
  - destruct (fs.mkdirSync (disk w) (clock w) _) as [d1|e] eqn:Hmk; simpl.
    + destruct (mkdirSync_fresh _ _ _ _ Hex Hmk) as [Hnone ->].
      destruct (fs.copyFileSync _ (clock w) _ _) as [d2|e] eqn:Hcp; simpl.
      * eapply (ce_synced fr w _ d2); [done|by right|done].
      * apply ce_failed; [done|by right].
    + replace w with (with_disk (disk w) w) at 2 by (by destruct w).
      apply ce_failed; [done|by left].
Qed.

Lemma stretch_await (fr : frame) (ms : Z) (k : wake) (attempt : nat) (w : World) :
  stretch fr (Await ms k attempt) w
  = (Ok (Waiting (next_timer w)), (setTimeout (CbResume fr k attempt) ms w).2).
Proof. reflexivity. Qed.

Lemma stretch_unstable (fr : frame) (w : World) :
  stretch fr (Return false) w = (Ok Unstable, release (fr_file fr) w).
Proof. reflexivity. Qed.

Lemma stretch_stable (fr : frame) (w : World) :
  exists r w1,
    copy_effect fr w r w1
    /\ stretch fr (Return true) w
       = match r with
         | Ok o => (Ok o, release (fr_file fr) w1)
         | Throw e =>
             (Ok (Failed e), release (fr_file fr) (console_log (LogError e) w1))
         end.
Proof.
  exists (copy_and_record fr w).1, (copy_and_record fr w).2.
  split; [apply copy_and_record_effect|].
  pose proof (copy_and_record_effect fr w) as Heff.
  unfold stretch, try_catch_finally, after_probe.
  destruct (copy_and_record fr w) as [r w1]. simpl in *.
  inversion Heff; subst; reflexivity.
Qed.

(** ** [performSync] always completes *)

Lemma after_attempt_wakes (maxAttempts attempt : nat) :
  (attempt <= maxAttempts)%nat ->
  (wakes_left maxAttempts (after_attempt maxAttempts attempt)
   <= 2 * (maxAttempts - attempt))%nat.
Proof.
  intros Hle. unfold after_attempt. case_bool_decide; simpl; lia.
Qed.

Lemma loop_head_wakes (d : FS) (p : string) (maxAttempts attempt : nat) :
  (wakes_left maxAttempts (loop_head d p maxAttempts attempt)
   <= if bool_decide (attempt <= maxAttempts)%nat
      then 2 * (maxAttempts - attempt) + 1 else 0)%nat.
Proof.
  unfold loop_head. case_bool_decide as Hle; simpl; [|lia].
  unfold attempt_body.
  destruct (negb (fs.existsSync d p)); simpl; [lia|].
  destruct (fs.statSync d p) as [stats1|msg].
  - destruct (st_size stats1 =? 0); simpl; lia.
  - pose proof (after_attempt_wakes maxAttempts attempt Hle). lia.
Qed.

Lemma isFileStable_wake_wakes (d : FS) (p : string) (maxAttempts : nat)
    (ms : Z) (k : wake) (attempt : nat) :
  (wakes_left maxAttempts (isFileStable_wake d p maxAttempts k attempt)
   < wakes_left maxAttempts (Await ms k attempt))%nat.
Proof.
  pose proof (loop_head_wakes d p maxAttempts (S attempt)) as Hnext.
  destruct k as [|stats1|]; simpl.
  - case_bool_decide; lia.
  - clear Hnext. destruct (negb (fs.existsSync d p)); simpl; [lia|].
    assert (Haft : (wakes_left maxAttempts (after_attempt maxAttempts attempt)
                    < 2 * (maxAttempts - attempt) + 1)%nat).
    { unfold after_attempt. case_bool_decide; simpl; lia. }
    destruct (fs.statSync d p) as [stats2|msg]; [|exact Haft].
    destruct (_ && _); simpl; [lia|exact Haft].
  - case_bool_decide; lia.
Qed.

(** [isFileStable] returns: with [maxAttempts] attempts, the disk at the call
    and [2 * maxAttempts - 1] later states are always enough. *)
Lemma probe_run_total (p : string) (maxAttempts : nat) (snaps : list FS) :
  forall (pr : probe) (waited : Z),
    (wakes_left maxAttempts pr <= length snaps)%nat ->
    exists b t, probe_run p maxAttempts pr waited snaps = Some (b, t).
Proof.
  induction snaps as [|d rest IH]; intros pr waited Hlen.
  - destruct pr as [b|ms k attempt]; [by eexists _, _|].
    exfalso. destruct k; simpl in Hlen; lia.
  - destruct pr as [b|ms k attempt]; [by eexists _, _|].
    simpl. apply IH.
    pose proof (isFileStable_wake_wakes d p maxAttempts ms k attempt).
    change (length (d :: rest)) with (S (length rest)) in Hlen. lia.
Qed.

Lemma isFileStable_total (p : string) (maxAttempts : nat) (d : FS)
    (rest : list FS) :
  (2 * maxAttempts - 1 <= length rest)%nat ->
  exists b t, isFileStable (d :: rest) p maxAttempts = Some (b, t).
Proof.
  intros Hlen. unfold isFileStable, isFileStable_start. apply probe_run_total.
  etransitivity; [apply loop_head_wakes|]. case_bool_decide; lia.
Qed.


Lemma performSync_settle_done (snaps : list FS) (o : outcome) (w : World) :
  (forall id, o <> Waiting id) ->
  performSync_settle snaps (Ok o, w) = (Ok o, w).
Proof.
  intros Hdone. destruct snaps as [|d rest]; destruct o; try reflexivity.
  all: by exfalso; eapply Hdone.
Qed.

Lemma wake_up_pending (fr : frame) (ms : Z) (k : wake) (attempt : nat)
    (d : FS) (w : World) :
  exists w',
    (disk w' = d /\ mgr w' = mgr w)
    /\ wake_up (next_timer w) d (setTimeout (CbResume fr k attempt) ms w).2
       = performSync_resume fr k attempt w'.
Proof.
  unfold wake_up, setTimeout. simpl. rewrite lookup_insert_eq.
  eexists. split; [|reflexivity]. split; reflexivity.
Qed.

Lemma stretch_return_done (fr : frame) (b : bool) (w : World) :
  exists o w',
    stretch fr (Return b) w = (Ok o, w') /\ forall id, o <> Waiting id.
Proof.
  destruct b.
  - destruct (stretch_stable fr w) as (r & w1 & Heff & ->).
    inversion Heff; subst; eexists _, _; (split; [reflexivity|discriminate]).
  - rewrite stretch_unstable. eexists _, _. split; [reflexivity|discriminate].
Qed.



(** ** What a stretch does to the disk and the fingerprint maps *)

Lemma stretch_store_step (fr : frame) (p : probe) (w : World) :
  store_step w (stretch fr p w).2.
Proof.
  destruct p as [[|]|ms k attempt].
  - destruct (stretch_stable fr w) as (r & w1 & Heff & ->).
    inversion Heff as [Hch|d1 d2 Hch Hdir Hcp|d1 e Hch Hdir]; subst; simpl.
    + apply ss_same; reflexivity.
    + eapply ss_sync; [exact Hdir|exact Hcp|..].
      * unfold updateRelatedHashes. simpl. by case_match.
      * reflexivity.
      * reflexivity.
    + destruct Hdir as [->|[Hnone ->]].
      * apply ss_same; reflexivity.
      * eapply ss_mkdir; [exact Hnone|reflexivity..].
  - rewrite stretch_unstable. apply ss_same; reflexivity.
  - rewrite stretch_await. apply ss_same; reflexivity.
Qed.

(** A stretch that does not end in [Synced] or [Failed] leaves the disk and
    both maps alone; so does every stretch that finds the file unchanged. *)
Lemma stretch_idle (fr : frame) (p : probe) (w : World) :
  (hasFileChanged (fr_source fr) w = false
   \/ (forall e, (stretch fr p w).1 <> Ok (Failed e))
      /\ (stretch fr p w).1 <> Ok Synced) ->
  same_store w (stretch fr p w).2 /\ (stretch fr p w).1 <> Ok Synced.
Proof.
  intros Hidle. destruct p as [[|]|ms k attempt].
  - destruct (stretch_stable fr w) as (r & w1 & Heff & Heq).
    rewrite Heq in *.
    inversion Heff as [Hch|d1 d2 Hch Hdir Hcp|d1 e Hch Hdir]; subst; simpl in *.
    + split; [repeat split; reflexivity|discriminate].
    + destruct Hidle as [Hno|[_ Hns]]; [congruence|done].
    + destruct Hidle as [Hno|[Hnf _]]; [congruence|]. by destruct (Hnf e).
  - rewrite stretch_unstable. split; [repeat split; reflexivity|discriminate].
  - rewrite stretch_await. split; [repeat split; reflexivity|discriminate].
Qed.

Lemma settle_unchanged (snaps : list FS) :
  forall (fr : frame) (p : probe) (w w' : World),
    performSync_settle snaps (stretch fr p w) = (Ok Unchanged, w') ->
    fileHashes (mgr w') = fileHashes (mgr w)
    /\ lastSyncTime (mgr w') = lastSyncTime (mgr w)
    /\ disk w' ∈ disk w :: snaps.
Proof.
  induction snaps as [|d rest IH]; intros fr p w w' Hrun.
  - assert (Hst : stretch fr p w = (Ok Unchanged, w')).
    { destruct (stretch fr p w) as [[[]|] ?]; simpl in Hrun; congruence. }
    destruct (stretch_idle fr p w) as [(Hd & Hh & Ht) _].
    { right. rewrite Hst. split; [intros e|]; discriminate. }
    rewrite Hst in *. simpl in *. rewrite Hd. repeat split; try done.
    apply list_elem_of_here.
  - destruct p as [b|ms k attempt].
    + destruct (stretch_return_done fr b w) as (o & w1 & Heq & Hdone).
      rewrite Heq, performSync_settle_done in Hrun by done.
      injection Hrun as -> ->.
      destruct (stretch_idle fr (Return b) w) as [(Hd & Hh & Ht) _].
      { right. rewrite Heq. split; [intros e|]; discriminate. }
      rewrite Heq in *. simpl in *. rewrite Hd. repeat split; try done.
      apply list_elem_of_here.
    + rewrite stretch_await in Hrun.
      change (performSync_settle (d :: rest) (Ok (Waiting (next_timer w)), ?w1))
        with (performSync_settle rest (wake_up (next_timer w) d w1)) in Hrun.
      destruct (wake_up_pending fr ms k attempt d w) as (w2 & [Hd Hm] & Heq).
      rewrite Heq, performSync_resume_stretch in Hrun.
      apply IH in Hrun as (Hh & Ht & Hin).
      rewrite Hm in Hh, Ht. rewrite Hd in Hin.
      repeat split; try done. by apply list_elem_of_further.
Qed.

Lemma isFileStable_start_not_true (d : FS) (p : string) (maxAttempts : nat) :
  isFileStable_start d p maxAttempts <> Return true.
Proof.
  unfold isFileStable_start, loop_head, attempt_body, after_attempt.
  repeat (case_match; try discriminate).
Qed.

(** C4. When [hasFileChanged] is false for the file to be read, the stretch
    of [performSync] that makes the re-check copies nothing and records
    nothing: the disk, [fileHashes] and [lastSyncTime] are as before. The
    stretch before the first wait never writes at all. For the call as a
    whole: when it ends at the re-check ([Unchanged]), both maps are as they
    were before the call and the disk is as other processes left it. *)
Theorem performSync_unchanged_is_noop (fr : frame) (k : wake) (attempt : nat)
    (w : World) :
  hasFileChanged (fr_source fr) w = false ->
  (same_store w (performSync_resume fr k attempt w).2
   /\ (performSync_resume fr k attempt w).1 <> Ok Synced)
  /\ (forall P D w0, same_store w0 (performSync P D w0).2)
  /\ (forall P D w0 snaps w',
        performSync_settle snaps (performSync P D w0) = (Ok Unchanged, w') ->
        fileHashes (mgr w') = fileHashes (mgr w0)
        /\ lastSyncTime (mgr w') = lastSyncTime (mgr w0)
        /\ disk w' ∈ disk w0 :: snaps).
Proof.
  intros Hsame. split; [|split].
  - rewrite performSync_resume_stretch. apply stretch_idle. by left.
  - intros P D w0. rewrite performSync_stretch. cbv zeta.
    destruct (isFileLocked _ _); [repeat split; reflexivity|].
    set (w1 := lockFile (path_resolve P) w0).
    set (fr0 := mkFrame _ _ _ _).
    pose proof (isFileStable_start_not_true (disk w1) (fr_source fr0) 3) as Hp.
    destruct (stretch_idle fr0 (isFileStable_start (disk w1) (fr_source fr0) 3) w1)
      as [(Hd & Hh & Ht) _].
    { right.
      destruct (isFileStable_start (disk w1) (fr_source fr0) 3)
        as [[|]|ms k0 a0]; [done| |].
      - rewrite stretch_unstable. split; [intros e|]; discriminate.
      - rewrite stretch_await. split; [intros e|]; discriminate. }
    repeat split; [rewrite Hd|rewrite Hh|rewrite Ht]; reflexivity.
  - intros P D w0 snaps w'. rewrite performSync_stretch. cbv zeta.
    destruct (isFileLocked _ _).
    + destruct snaps; simpl; discriminate.
    + intros Hrun. apply settle_unchanged in Hrun. exact Hrun.
Qed.

(** ** What one action does to the disk and the fingerprint maps *)

Lemma store_view_eq (w1 w2 : World) :
  store_view w1 = store_view w2 ->
  disk w1 = disk w2 /\ clock w1 = clock w2
  /\ fileHashes (mgr w1) = fileHashes (mgr w2)
  /\ lastSyncTime (mgr w1) = lastSyncTime (mgr w2).
Proof. unfold store_view. intros [= -> -> -> ->]. done. Qed.

Lemma updateRelatedHashes_view (a b : string) (w1 w2 : World) :
  store_view w1 = store_view w2 ->
  store_view (updateRelatedHashes a b w1) = store_view (updateRelatedHashes a b w2).
Proof.
  intros Hv. pose proof Hv as (Hd & Hc & Hh & Ht)%store_view_eq.
  unfold updateRelatedHashes. rewrite Hd.
  case_match; [|exact Hv].
  unfold store_view. simpl. by rewrite Hd, Hc, Hh, Ht.
Qed.

Lemma store_step_ext (w1 w1' w w' : World) :
  store_view w = store_view w1 ->
  store_view w' = store_view w1' ->
  store_step w1 w1' -> store_step w w'.
Proof.
  intros Hv Hv' Hstep.
  pose proof Hv as (Hd & Hc & Hh & Ht)%store_view_eq.
  pose proof Hv' as (Hd' & Hc' & Hh' & Ht')%store_view_eq.
  destruct Hstep as [E1 E2 E3|dir E0 E1 E2 E3|src tgt d1 d2 Hdir Hcp E1 E2 E3].
  - apply ss_same; congruence.
  - apply (ss_mkdir _ _ dir); congruence.
  - assert (Hu : store_view (updateRelatedHashes src tgt (with_disk d2 w))
                 = store_view (updateRelatedHashes src tgt (with_disk d2 w1))).
    { apply updateRelatedHashes_view. unfold store_view. simpl. congruence. }
    apply store_view_eq in Hu as (_ & _ & Hu1 & Hu2).
    apply (ss_sync _ _ src tgt d1 d2).
    + unfold dir_ready in *. rewrite Hd, Hc. exact Hdir.
    + rewrite Hc. exact Hcp.
    + congruence.
    + congruence.
    + congruence.
Qed.

Lemma scheduleSync_unfold (p : string) (d : direction) (w : World) :
  scheduleSync p d w
  = let key := sync_key p d in
    let w1 :=
      match pendingOperations (mgr w) !! key with
      | Some timeout => clearTimeout timeout w
      | None => w
      end in
    with_mgr
      (with_pendingOperations
         (<[key := next_timer w1]> (pendingOperations (mgr w1))) (mgr w1))
      (setTimeout (CbDebounce p d key) (sync_delay d) w1).2.
Proof. reflexivity. Qed.

Lemma scheduleSync_view (p : string) (d : direction) (w : World) :
  store_view (scheduleSync p d w) = store_view w.
Proof.
  rewrite scheduleSync_unfold. cbv zeta.
  destruct (pendingOperations (mgr w) !! sync_key p d); reflexivity.
Qed.

Lemma handleFileChange_view (f : string) (w : World) :
  store_view (handleFileChange f w) = store_view w.
Proof.
  unfold handleFileChange. repeat case_match; try reflexivity;
    apply scheduleSync_view.
Qed.

Lemma cleanup_view (w : World) : store_view (cleanup w) = store_view w.
Proof.
  unfold cleanup.
  change (store_view
            (map_fold (fun _ timeout acc => clearTimeout timeout acc) w
               (pendingOperations (mgr w))) = store_view w).
  apply (map_fold_weak_ind (fun r _ => store_view r = store_view w)).
  - reflexivity.
  - intros key id pend r _ IH. exact IH.
Qed.

Lemma performSync_store_step (P : string) (D : direction) (w : World) :
  store_step w (performSync P D w).2.
Proof.
  rewrite performSync_stretch. cbv zeta.
  destruct (isFileLocked _ _); [apply ss_same; reflexivity|].
  eapply (store_step_ext (lockFile (path_resolve P) w));
    [reflexivity|reflexivity|apply stretch_store_step].
Qed.

Lemma run_callback_store_step (c : callback) (w : World) :
  store_step w (run_callback c w).
Proof.
  destruct c as [f|f|f d key|fr k attempt]; simpl.
  - apply ss_same; reflexivity.
  - apply ss_same; reflexivity.
  - eapply (store_step_ext w (performSync f d w).2);
      [reflexivity|reflexivity|apply performSync_store_step].
  - rewrite performSync_resume_stretch. apply stretch_store_step.
Qed.

Lemma exec_store_step (a : action) (w : World) :
  (forall d, a <> External d) ->
  (forall dt, a <> Tick dt) ->
  store_step w (exec a w).
Proof.
  intros Hext Htick. destruct a as [dt|d|f|id|]; simpl.
  - by destruct (Htick dt).
  - by destruct (Hext d).
  - pose proof (handleFileChange_view f w) as (? & ? & ? & ?)%store_view_eq.
    by apply ss_same.
  - destruct (timers w !! id) as [t|]; [|apply ss_same; reflexivity].
    destruct (due t <=? clock w); [|apply ss_same; reflexivity].
    eapply (store_step_ext (clearTimeout id w)
              (run_callback (cb t) (clearTimeout id w)));
      [reflexivity|reflexivity|apply run_callback_store_step].
  - pose proof (cleanup_view w) as (? & ? & ? & ?)%store_view_eq.
    by apply ss_same.
Qed.

(** ** The fingerprint store only holds digests *)

Lemma store_sound_ext (w w' : World) :
  fileHashes (mgr w') = fileHashes (mgr w) -> store_sound w -> store_sound w'.
Proof. unfold store_sound. intros ->. done. Qed.

Lemma updateRelatedHashes_sound (a b : string) (w : World) :
  store_sound w -> store_sound (updateRelatedHashes a b w).
Proof.
  intros Hs.
  destruct (updateRelatedHashes_cases a b w) as [->|(h & Hne & Ha & Hb & ->)];
    [exact Hs|].
  destruct (getFileHash_present _ _ _ Ha) as (content & m & _ & ->).
  intros p v. unfold record_pair. simpl.
  rewrite lookup_insert. case_decide as Hb'.
  - intros [= <-]. by exists content.
  - rewrite lookup_insert. case_decide as Ha'.
    + intros [= <-]. by exists content.
    + apply Hs.
Qed.

Lemma updateFileHash_sound (p : string) (w : World) :
  store_sound w -> store_sound (updateFileHash p w).
Proof.
  intros Hs. unfold updateFileHash.
  destruct (truthy (getFileHash (disk w) p)) eqn:Ht; [|exact Hs].
  apply truthy_present in Ht as (h & Hh & Hne).
  destruct (getFileHash_present _ _ _ Hh) as (content & m & _ & ->).
  intros q v. simpl. rewrite Hh, lookup_insert. case_decide.
  - intros [= <-]. by exists content.
  - apply Hs.
Qed.

Lemma store_step_sound (w w' : World) :
  store_step w w' -> store_sound w -> store_sound w'.
Proof.
  intros [E1 E2 E3|dir E0 E1 E2 E3|src tgt d1 d2 Hdir Hcp E1 E2 E3] Hs.
  - by apply (store_sound_ext w).
  - by apply (store_sound_ext w).
  - apply (store_sound_ext (updateRelatedHashes src tgt (with_disk d2 w)));
      [exact E2|].
    apply updateRelatedHashes_sound. by apply (store_sound_ext w).
Qed.

(** The action at hand is one of the engine's own callbacks. *)
Ltac engine_step := apply exec_store_step; intros; discriminate.

Lemma exec_sound (a : action) (w : World) :
  store_sound w -> store_sound (exec a w).
Proof.
  intros Hs. destruct a as [dt|d|f|id|] eqn:Ha.
  - simpl. destruct (0 <=? dt); [|exact Hs]. by apply (store_sound_ext w).
  - by apply (store_sound_ext w).
  - apply (store_step_sound w); [engine_step|exact Hs].
  - apply (store_step_sound w); [engine_step|exact Hs].
  - apply (store_step_sound w); [engine_step|exact Hs].
Qed.

Lemma run_sound (tr : list action) (w : World) :
  store_sound w -> store_sound (run tr w).
Proof.
  revert w. induction tr as [|a tr IH]; intros w Hs; [exact Hs|].
  apply IH, exec_sound, Hs.
Qed.

Lemma initializeFileHashes_sound (files : list string) (w : World) :
  store_sound w -> store_sound (initializeFileHashes files w).
Proof.
  revert w. induction files as [|file files IH]; intros w Hs; [exact Hs|].
  apply IH, updateFileHash_sound, Hs.
Qed.

(** C9. Starting from the empty store of the constructor, after the initial
    hashing and after any sequence of watcher events, timer firings, clock
    ticks, changes made by other processes and a SIGINT, every entry of
    [fileHashes] is a non-empty digest string: never [null], never
    [undefined]. *)
Theorem fileHashes_never_absent (source target : string) (files : list string)
    (d : FS) (now : Z) (tr : list action) :
  let w := run tr (setupUnifiedWatcher source target files d now) in
  store_sound w
  /\ forall p, fileHashes (mgr w) !! p <> Some JNull
               /\ fileHashes (mgr w) !! p <> Some JUndefined.
Proof.
  assert (Hs : store_sound (run tr (setupUnifiedWatcher source target files d now))).
  { apply run_sound, initializeFileHashes_sound.
    intros p v. simpl. rewrite lookup_empty. discriminate. }
  split; [exact Hs|].
  intros p. split; intros Hp; destruct (Hs _ _ Hp) as (c & Hc & _);
    discriminate Hc.
Qed.

(** ** No feedback: the engine's own write is not picked up again *)















(** ** Timers: what the engine adds to the queue *)

Lemma timer_view_eq (w1 w2 : World) :
  timer_view w1 = timer_view w2 ->
  timers w1 = timers w2 /\ next_timer w1 = next_timer w2
  /\ clock w1 = clock w2
  /\ pendingOperations (mgr w1) = pendingOperations (mgr w2).
Proof. unfold timer_view. intros [= -> -> -> ->]. done. Qed.

Lemma apt_refl (w : World) : adds_plain_timers w w.
Proof. split; try done. intros id t _ Ht. by left. Qed.

Lemma apt_trans (w1 w2 w3 : World) :
  adds_plain_timers w1 w2 -> adds_plain_timers w2 w3 -> adds_plain_timers w1 w3.
Proof.
  intros [N1 O1 A1 C1 P1] [N2 O2 A2 C2 P2]. split.
  - lia.
  - intros id Hid. rewrite O2 by lia. by apply O1.
  - intros id t Hid Ht.
    destruct (decide (id < next_timer w2)%nat) as [Hlt|Hge].
    + rewrite O2 in Ht by done.
      destruct (A1 id t Hid Ht) as [Hl|[Hr Hp]]; [by left|right; split; [lia|done]].
    + destruct (A2 id t ltac:(lia) Ht) as [Hl|[Hr Hp]]; [|by right].
      destruct (A1 id t Hid Hl) as [Hl'|[Hr Hp]]; [by left|right; split; [lia|done]].
  - congruence.
  - congruence.
Qed.

Lemma apt_view (w w1 w2 : World) :
  timer_view w2 = timer_view w1 ->
  adds_plain_timers w w1 -> adds_plain_timers w w2.
Proof.
  intros (Ht & Hn & Hc & Hp)%timer_view_eq [N O A C P].
  split; rewrite ?Ht, ?Hn, ?Hc, ?Hp; done.
Qed.

Lemma apt_setTimeout (c : callback) (ms : Z) (w : World) :
  plain c -> adds_plain_timers w (setTimeout c ms w).2.
Proof.
  intros Hc. split; simpl; try done.
  - lia.
  - intros id Hid. rewrite lookup_insert_ne by lia. done.
  - intros id t Hid. rewrite lookup_insert. case_decide as Heq.
    + intros [= <-]. right. split; [lia|done].
    + intros Ht. by left.
Qed.

Lemma updateRelatedHashes_timer_view (a b : string) (w : World) :
  timer_view (updateRelatedHashes a b w) = timer_view w.
Proof.
  destruct (updateRelatedHashes_cases a b w) as [->|(h & _ & _ & _ & ->)];
    reflexivity.
Qed.

Lemma copy_effect_timer_view (fr : frame) (w w1 : World) (r : exn outcome) :
  copy_effect fr w r w1 -> timer_view w1 = timer_view w.
Proof.
  intros [Hch|d1 d2 Hch Hdir Hcp|d1 e Hch Hdir]; try reflexivity.
  change (timer_view (updateRelatedHashes (fr_source fr) (fr_target fr)
                        (with_disk d2 w)) = timer_view (with_disk d2 w)).
  apply updateRelatedHashes_timer_view.
Qed.

Lemma release_apt (f : string) (w : World) : adds_plain_timers w (release f w).
Proof. by apply apt_setTimeout. Qed.

Lemma stretch_apt (fr : frame) (p : probe) (w : World) :
  adds_plain_timers w (stretch fr p w).2.
Proof.
  destruct p as [[|]|ms k attempt].
  - destruct (stretch_stable fr w) as (r & w1 & Heff & ->).
    apply copy_effect_timer_view in Heff.
    assert (Hw1 : adds_plain_timers w w1) by (eapply apt_view; [exact Heff|apply apt_refl]).
    destruct r as [o|e]; simpl.
    + eapply apt_trans; [exact Hw1|apply release_apt].
    + eapply apt_trans; [|apply release_apt].
      eapply apt_view; [|exact Hw1]. reflexivity.
  - rewrite stretch_unstable. apply release_apt.
  - rewrite stretch_await. by apply apt_setTimeout.
Qed.

Lemma lockFile_apt (f : string) (w : World) : adds_plain_timers w (lockFile f w).
Proof.
  unfold lockFile.
  eapply apt_trans; [|by apply apt_setTimeout].
  eapply apt_view; [|apply apt_refl]. reflexivity.
Qed.

Lemma unlockFile_apt (f : string) (w : World) : adds_plain_timers w (unlockFile f w).
Proof.
  unfold unlockFile.
  eapply apt_trans; [|by apply apt_setTimeout].
  eapply apt_view; [|apply apt_refl]. reflexivity.
Qed.

Lemma performSync_apt (P : string) (D : direction) (w : World) :
  adds_plain_timers w (performSync P D w).2.
Proof.
  rewrite performSync_stretch. cbv zeta.
  destruct (isFileLocked _ _); [apply release_apt|].
  eapply apt_trans; [apply lockFile_apt|apply stretch_apt].
Qed.

(** ** The pending map and the debounce timers agree *)

Lemma pending_agrees_view (pend : gmap string nat) (w w' : World) :
  timers w' = timers w -> next_timer w' = next_timer w ->
  pending_agrees pend w -> pending_agrees pend w'.
Proof. intros Ht Hn [P1 P2 P3]. split; rewrite ?Ht, ?Hn; done. Qed.

Lemma pending_consistent_intro (w w1 : World) :
  timers w = timers w1 -> next_timer w = next_timer w1 ->
  pending_agrees (pendingOperations (mgr w)) w1 -> pending_consistent w.
Proof. intros Ht Hn Hp. by apply (pending_agrees_view _ w1). Qed.

Lemma pending_agrees_apt (pend : gmap string nat) (w w' : World) :
  adds_plain_timers w w' -> pending_agrees pend w -> pending_agrees pend w'.
Proof.
  intros [N O A C P] [P1 P2 P3]. split.
  - intros key id Hk. destruct (P1 key id Hk) as (p & d & t & Ht).
    exists p, d, t. rewrite O; [done|].
    destruct (decide (id < next_timer w)%nat) as [|Hge]; [done|].
    rewrite P3 in Ht by lia. discriminate.
  - intros id t p d key Ht.
    destruct (decide (id < next_timer w)%nat) as [Hlt|Hge].
    + rewrite O in Ht by done. by eapply P2.
    + destruct (A id _ ltac:(lia) Ht) as [Hl|[_ Hp]]; [|by destruct Hp].
      rewrite P3 in Hl by lia. discriminate.
  - intros id Hid. destruct (timers w' !! id) as [t|] eqn:Ht; [|done].
    destruct (A id t ltac:(lia) Ht) as [Hl|[Hr _]]; [|lia].
    rewrite P3 in Hl by lia. discriminate.
Qed.

Lemma pending_consistent_apt (w w' : World) :
  adds_plain_timers w w' -> pending_consistent w -> pending_consistent w'.
Proof.
  intros Hapt Hpc. unfold pending_consistent.
  rewrite (apt_pending _ _ Hapt). by eapply pending_agrees_apt.
Qed.

(** Removing a timer that is not a debounce timer. *)
Lemma pending_agrees_clear_plain (pend : gmap string nat) (id : nat) (t : timer)
    (w : World) :
  timers w !! id = Some t -> plain (cb t) ->
  pending_agrees pend w -> pending_agrees pend (clearTimeout id w).
Proof.
  intros Ht Hplain [P1 P2 P3]. split; simpl.
  - intros key id' Hk. destruct (P1 key id' Hk) as (p & d & t' & Ht').
    exists p, d, t'. rewrite lookup_delete_ne; [done|].
    intros <-. rewrite Ht in Ht'. injection Ht' as ->. exact Hplain.
  - intros id' t' p d key. rewrite lookup_delete. case_decide; [done|]. apply P2.
  - intros id' Hid. rewrite lookup_delete. case_decide; [done|]. by apply P3.
Qed.

(** Removing the debounce timer of [key] together with its map entry. *)
Lemma pending_agrees_clear_debounce (pend : gmap string nat) (id : nat) (due0 : Z)
    (p : string) (d : direction) (key : string) (w : World) :
  timers w !! id = Some (mkTimer due0 (CbDebounce p d key)) ->
  pending_agrees pend w ->
  pending_agrees (delete key pend) (clearTimeout id w).
Proof.
  intros Ht [P1 P2 P3].
  pose proof (P2 _ _ _ _ _ Ht) as Hkey. split; simpl.
  - intros key' id'. rewrite lookup_delete. case_decide as Hne; [done|].
    intros Hk. destruct (P1 key' id' Hk) as (p' & d' & t' & Ht').
    exists p', d', t'. rewrite lookup_delete_ne; [done|].
    intros <-. rewrite Ht in Ht'. congruence.
  - intros id' t' p' d' key'. rewrite lookup_delete. case_decide as Hne; [done|].
    intros Ht'. pose proof (P2 _ _ _ _ _ Ht') as Hk'.
    rewrite lookup_delete_ne; [done|]. intros <-. congruence.
  - intros id' Hid. rewrite lookup_delete. case_decide; [done|]. by apply P3.
Qed.

Lemma scheduleSync_consistent (p : string) (d : direction) (w : World) :
  pending_consistent w ->
  let w' := scheduleSync p d w in
  pending_consistent w'
  /\ exists id,
       pendingOperations (mgr w') !! sync_key p d = Some id
       /\ timers w' !! id
          = Some (mkTimer (clock w + sync_delay d) (CbDebounce p d (sync_key p d)))
       /\ clock w' = clock w.
Proof.
  intros Hpc. cbv zeta. rewrite scheduleSync_unfold. cbv zeta.
  set (key := sync_key p d).
  set (w1 := match pendingOperations (mgr w) !! key with
             | Some timeout => clearTimeout timeout w
             | None => w
             end).
  assert (Hw1 : pending_agrees (delete key (pendingOperations (mgr w))) w1
                /\ clock w1 = clock w
                /\ pendingOperations (mgr w1) = pendingOperations (mgr w)).
  { subst w1. destruct (pendingOperations (mgr w) !! key) as [old|] eqn:Hold.
    - destruct (pc_pending _ _ Hpc key old Hold) as (p' & d' & t' & Ht').
      split; [|done]. by eapply pending_agrees_clear_debounce.
    - split; [|done]. rewrite delete_id by done. exact Hpc. }
  destruct Hw1 as ([P1 P2 P3] & Hclock & Hpend).
  split.
  - split; simpl.
    + intros key' id'. rewrite lookup_insert. case_decide as Hk.
      * intros [= <-]. subst key'. eexists p, d, _. apply lookup_insert_eq.
      * rewrite Hpend. intros Hk'.
        destruct (P1 key' id') as (p' & d' & t' & Ht').
        { by rewrite lookup_delete_ne. }
        exists p', d', t'. rewrite lookup_insert_ne; [done|].
        intros <-. rewrite P3 in Ht' by lia. discriminate.
    + intros id' t' p' d' key'. rewrite lookup_insert. case_decide as Hid.
      * intros [= _ <- <- <-]. subst id'. apply lookup_insert_eq.
      * intros Ht'. pose proof (P2 _ _ _ _ _ Ht') as Hk'.
        rewrite lookup_delete in Hk'. case_decide as Hne; [done|].
        rewrite lookup_insert_ne by done. by rewrite Hpend.
    + intros id' Hid. rewrite lookup_insert_ne by lia. apply P3. lia.
  - exists (next_timer w1). simpl. rewrite !lookup_insert_eq, Hclock. done.
Qed.

Lemma cleanup_fold (w : World) (pend : gmap string nat) :
  let r := map_fold (fun _ timeout acc => clearTimeout timeout acc) w pend in
  (forall id, (exists key, pend !! key = Some id) -> timers r !! id = None)
  /\ (forall id, (forall key, pend !! key <> Some id) ->
        timers r !! id = timers w !! id)
  /\ (forall id t, timers r !! id = Some t -> timers w !! id = Some t)
  /\ next_timer r = next_timer w /\ mgr r = mgr w /\ clock r = clock w.
Proof.
  cbv zeta.
  apply (map_fold_weak_ind (fun r m =>
    (forall id, (exists key, m !! key = Some id) -> timers r !! id = None)
    /\ (forall id, (forall key, m !! key <> Some id) ->
          timers r !! id = timers w !! id)
    /\ (forall id t, timers r !! id = Some t -> timers w !! id = Some t)
    /\ next_timer r = next_timer w /\ mgr r = mgr w /\ clock r = clock w)).
  - split; [|done]. intros id [key Hk]. rewrite lookup_empty in Hk. discriminate.
  - intros i x m r Hnone (IH1 & IH2 & IH3 & IHn & IHm & IHc).
    split; [|split; [|split; [|done]]]; simpl.
    + intros id [key Hk]. rewrite lookup_delete. case_decide as Hx; [done|].
      apply IH1. exists key. rewrite lookup_insert in Hk.
      case_decide; [congruence|done].
    + intros id Hno. rewrite lookup_delete. case_decide as Hx.
      * subst. destruct (Hno i). apply lookup_insert_eq.
      * apply IH2. intros key Hk. apply (Hno key).
        rewrite lookup_insert_ne; [done|]. intros <-. congruence.
    + intros id t. rewrite lookup_delete. case_decide; [done|]. apply IH3.
Qed.

Lemma cleanup_consistent (w : World) :
  pending_consistent w -> pending_consistent (cleanup w).
Proof.
  intros [P1 P2 P3].
  destruct (cleanup_fold w (pendingOperations (mgr w)))
    as (C1 & C2 & C3 & Cn & Cm & Cc).
  split; unfold cleanup; simpl.
  - intros key id Hk. rewrite lookup_empty in Hk. discriminate.
  - intros id t p d key Ht. exfalso.
    pose proof (P2 _ _ _ _ _ (C3 _ _ Ht)) as Hk.
    rewrite C1 in Ht by (by exists key). discriminate.
  - intros id Hid. rewrite Cn in Hid.
    destruct (timers _ !! id) as [t|] eqn:Ht; [|done].
    apply C3 in Ht. rewrite P3 in Ht by done. discriminate.
Qed.

Lemma run_callback_consistent (id : nat) (t : timer) (w : World) :
  timers w !! id = Some t ->
  pending_consistent w ->
  pending_consistent (run_callback (cb t) (clearTimeout id w)).
Proof.
  intros Ht Hpc. destruct t as [due0 c]. simpl.
  destruct c as [f|f|f d key|fr k attempt]; simpl.
  - eapply pending_consistent_apt; [apply unlockFile_apt|].
    by eapply (pending_agrees_clear_plain _ id).
  - apply (pending_consistent_intro _ (clearTimeout id w)); [reflexivity..|].
    by eapply (pending_agrees_clear_plain _ id).
  - apply (pending_consistent_intro _ (performSync f d (clearTimeout id w)).2);
      [reflexivity..|].
    simpl.
    rewrite (apt_pending _ _ (performSync_apt f d (clearTimeout id w))).
    eapply pending_agrees_apt; [apply performSync_apt|].
    by eapply pending_agrees_clear_debounce.
  - rewrite performSync_resume_stretch.
    eapply pending_consistent_apt; [apply stretch_apt|].
    by eapply (pending_agrees_clear_plain _ id).
Qed.

Lemma handleFileChange_cases (f : string) (w : World) :
  handleFileChange f w = w
  \/ exists d, handleFileChange f w = scheduleSync (path_resolve f) d w.
Proof.
  unfold handleFileChange. repeat case_match; eauto.
Qed.

Lemma exec_consistent (a : action) (w : World) :
  pending_consistent w -> pending_consistent (exec a w).
Proof.
  intros Hpc. destruct a as [dt|d|f|id|]; simpl.
  - destruct (0 <=? dt); [|done].
    by apply (pending_consistent_intro _ w).
  - by apply (pending_consistent_intro _ w).
  - destruct (handleFileChange_cases f w) as [->|[d ->]]; [done|].
    by apply scheduleSync_consistent.
  - destruct (timers w !! id) as [t|] eqn:Ht; [|done].
    destruct (due t <=? clock w); [|done].
    by eapply run_callback_consistent.
  - by apply cleanup_consistent.
Qed.

Lemma run_consistent (tr : list action) (w : World) :
  pending_consistent w -> pending_consistent (run tr w).
Proof.
  revert w. induction tr as [|a tr IH]; intros w Hpc; [done|].
  apply IH, exec_consistent, Hpc.
Qed.

Lemma updateFileHash_timer_view (p : string) (w : World) :
  timer_view (updateFileHash p w) = timer_view w.
Proof. unfold updateFileHash. by case_match. Qed.

Lemma setup_consistent (source target : string) (files : list string) (d : FS)
    (now : Z) :
  pending_consistent (setupUnifiedWatcher source target files d now).
Proof.
  unfold setupUnifiedWatcher.
  set (w0 := mkWorld d now ∅ 0%nat (new_SyncManager source target) []).
  assert (Hv : timer_view (initializeFileHashes files w0) = timer_view w0).
  { generalize w0. induction files as [|file files IH]; intros w; [done|].
    simpl. rewrite IH. apply updateFileHash_timer_view. }
  apply timer_view_eq in Hv as (Ht & Hn & _ & Hp).
  split; rewrite ?Ht, ?Hn, ?Hp; simpl.
  - intros key id Hk. rewrite lookup_empty in Hk. discriminate.
  - intros id t p d0 key Hk. rewrite lookup_empty in Hk. discriminate.
  - intros id _. apply lookup_empty.
Qed.

(** C8 (as the code has it). In every world the engine can reach, [cleanup]
    empties [pendingOperations], [syncingFiles] and [recentlySynced] and
    cancels exactly the debounce timers: a timer is outstanding after
    [cleanup] if and only if it was outstanding before and is not a debounce
    timer. The 10-second auto-unlock timers, the 5-second timers that remove
    a path from [recentlySynced], the 1-second release timers and the
    wake-ups of a running [performSync] stay in the queue. The fingerprint
    maps are left as they are. *)
Theorem cleanup_cancels_debounce_timers_only (source target : string)
    (files : list string) (d : FS) (now : Z) (tr : list action) :
  let w := run tr (setupUnifiedWatcher source target files d now) in
  let w' := cleanup w in
  pendingOperations (mgr w') = ∅
  /\ syncingFiles (mgr w') = ∅
  /\ recentlySynced (mgr w') = ∅
  /\ (forall id t,
        timers w' !! id = Some t <-> timers w !! id = Some t /\ plain (cb t))
  /\ fileHashes (mgr w') = fileHashes (mgr w)
  /\ lastSyncTime (mgr w') = lastSyncTime (mgr w).
Proof.
  cbv zeta. set (w := run tr _).
  assert (Hpc : pending_consistent w)
    by apply run_consistent, setup_consistent.
  destruct Hpc as [P1 P2 P3].
  destruct (cleanup_fold w (pendingOperations (mgr w)))
    as (C1 & C2 & C3 & Cn & Cm & Cc).
  split; [reflexivity|]. split; [reflexivity|]. split; [reflexivity|].
  split; [|split; unfold cleanup; simpl; by rewrite Cm].
  intros id t. unfold cleanup. simpl. split.
  - intros Ht. pose proof (C3 _ _ Ht) as Hw. split; [exact Hw|].
    destruct t as [due0 [f|f|f d0 key|fr k attempt]]; try exact I.
    pose proof (P2 _ _ _ _ _ Hw) as Hk.
    rewrite C1 in Ht by (by exists key). discriminate.
  - intros [Ht Hplain]. rewrite C2; [done|].
    intros key Hk. destruct (P1 key id Hk) as (p & d0 & t' & Ht').
    rewrite Ht in Ht'. injection Ht' as ->. exact Hplain.
Qed.

(** ** Debouncing *)






Lemma run_callback_clock (c : callback) (w : World) :
  clock (run_callback c w) = clock w.
Proof.
  destruct c as [f|f|f d' key|fr k attempt].
  - exact (apt_clock _ _ (unlockFile_apt f w)).
  - reflexivity.
  - exact (apt_clock _ _ (performSync_apt f d' w)).
  - exact (apt_clock _ _ (stretch_apt fr _ w)).
Qed.

Lemma exec_clock (a : action) (w : World) :
  clock (exec a w)
  = clock w + match a with Tick dt => Z.max 0 dt | _ => 0 end.
Proof.
  destruct a as [dt|d|f|id|]; unfold exec.
  - destruct (Z.leb_spec 0 dt); simpl; lia.
  - simpl. lia.
  - pose proof (handleFileChange_view f w) as (_ & -> & _)%store_view_eq. lia.
  - destruct (timers w !! id) as [t|]; [|lia].
    destruct (due t <=? clock w); [|lia].
    rewrite run_callback_clock. simpl. lia.
  - pose proof (cleanup_view w) as (_ & -> & _)%store_view_eq. lia.
Qed.












(** * Further properties of the engine *)

(** ** The stability prober *)

Lemma after_attempt_linked (p : string) (d : FS) (maxAttempts attempt : nat) :
  stat_linked p d (after_attempt maxAttempts attempt)
  /\ loop_wait (after_attempt maxAttempts attempt).
Proof. unfold after_attempt. case_bool_decide; simpl; auto. Qed.

Lemma loop_head_linked (p : string) (d : FS) (maxAttempts attempt : nat) :
  stat_linked p d (loop_head d p maxAttempts attempt)
  /\ loop_wait (loop_head d p maxAttempts attempt).
Proof.
  unfold loop_head. case_bool_decide; [|done].
  unfold attempt_body. destruct (negb (fs.existsSync d p)); [done|].
  destruct (fs.statSync d p) as [stats1|msg] eqn:Hst;
    [|apply after_attempt_linked].
  destruct (Z.eqb_spec (st_size stats1) 0); simpl; auto.
Qed.

Lemma isFileStable_wake_linked (p : string) (d0 d : FS) (maxAttempts : nat)
    (ms : Z) (k : wake) (attempt : nat) :
  stat_linked p d0 (Await ms k attempt) ->
  (isFileStable_wake d p maxAttempts k attempt = Return true
   /\ exists s, fs.statSync d0 p = Ok s /\ fs.statSync d p = Ok s
                /\ st_size s <> 0)
  \/ (stat_linked p d (isFileStable_wake d p maxAttempts k attempt)
      /\ loop_wait (isFileStable_wake d p maxAttempts k attempt)).
Proof.
  intros Hlink. destruct k as [|stats1|]; simpl.
  - right. apply loop_head_linked.
  - destruct Hlink as [Hst0 Hsize].
    destruct (negb (fs.existsSync d p)); [by right|].
    destruct (fs.statSync d p) as [stats2|msg] eqn:Hst;
      [|right; apply after_attempt_linked].
    destruct (_ && _) eqn:Heq; [|right; apply after_attempt_linked].
    left. split; [done|]. exists stats1. split; [done|]. split; [|done].
    apply andb_true_iff in Heq as [Hs%Z.eqb_eq Hm%Z.eqb_eq].
    destruct stats1, stats2. simpl in *. by subst.
  - right. apply loop_head_linked.
Qed.

Lemma probe_run_true (p : string) (maxAttempts : nat) (snaps : list FS) :
  forall (d0 : FS) (pr : probe) (waited t : Z),
    stat_linked p d0 pr ->
    probe_run p maxAttempts pr waited snaps = Some (true, t) ->
    exists i d d' s,
      (d0 :: snaps) !! i = Some d /\ (d0 :: snaps) !! S i = Some d'
      /\ fs.statSync d p = Ok s /\ fs.statSync d' p = Ok s /\ st_size s <> 0.
Proof.
  induction snaps as [|d rest IH]; intros d0 pr waited t Hlink Hrun.
  - destruct pr as [b|ms k attempt]; simpl in *; [|discriminate].
    subst b. discriminate.
  - destruct pr as [b|ms k attempt].
    + simpl in Hlink. subst b. simpl in Hrun. discriminate.
    + simpl in Hrun.
      destruct (isFileStable_wake_linked p d0 d maxAttempts ms k attempt Hlink)
        as [[_ (s & Hs0 & Hs & Hsize)]|[Hlink' _]].
      * by exists 0%nat, d0, d, s.
      * destruct (IH d _ _ _ Hlink' Hrun) as (i & e & e' & s & Hi & Hi' & Hrest).
        by exists (S i), e, e', s.
Qed.

(** X1. [isFileStable] answers true only on the strength of two [stat]s,
    taken on two consecutive states of the disk, that agree in size and
    modification time, of a file that is not empty. *)
Theorem isFileStable_true_needs_equal_stats (snaps : list FS) (p : string)
    (maxAttempts : nat) (t : Z) :
  isFileStable snaps p maxAttempts = Some (true, t) ->
  exists i d d' s,
    snaps !! i = Some d /\ snaps !! S i = Some d'
    /\ fs.statSync d p = Ok s /\ fs.statSync d' p = Ok s /\ st_size s <> 0.
Proof.
  destruct snaps as [|d0 rest]; [discriminate|].
  unfold isFileStable, isFileStable_start. intros Hrun.
  eapply probe_run_true; [|exact Hrun]. apply loop_head_linked.
Qed.

Lemma after_attempt_budget (maxAttempts attempt : nat) :
  wait_budget maxAttempts (after_attempt maxAttempts attempt)
  <= 1500 * Z.of_nat (maxAttempts - attempt).
Proof.
  unfold after_attempt. case_bool_decide as Hlt; simpl.
  - rewrite bool_decide_eq_true_2 by done. lia.
  - lia.
Qed.

Lemma loop_head_budget (d : FS) (p : string) (maxAttempts attempt : nat) :
  wait_budget maxAttempts (loop_head d p maxAttempts attempt)
  <= if bool_decide (attempt <= maxAttempts)%nat
     then 1500 * Z.of_nat (maxAttempts - attempt) + 500 else 0.
Proof.
  unfold loop_head. case_bool_decide as Hle; [|done].
  unfold attempt_body. destruct (negb (fs.existsSync d p)); simpl; [lia|].
  destruct (fs.statSync d p) as [stats1|msg].
  - destruct (st_size stats1 =? 0); simpl; [|lia].
    case_bool_decide; lia.
  - pose proof (after_attempt_budget maxAttempts attempt). lia.
Qed.

Lemma isFileStable_wake_budget (d : FS) (p : string) (maxAttempts : nat)
    (ms : Z) (k : wake) (attempt : nat) :
  wait_budget maxAttempts (isFileStable_wake d p maxAttempts k attempt)
  <= wait_budget maxAttempts (Await ms k attempt) - ms.
Proof.
  pose proof (loop_head_budget d p maxAttempts (S attempt)) as Hnext.
  pose proof (after_attempt_budget maxAttempts attempt) as Haft.
  destruct k as [|stats1|]; simpl.
  - repeat case_bool_decide; lia.
  - clear Hnext. destruct (negb (fs.existsSync d p)); simpl; [lia|].
    destruct (fs.statSync d p) as [stats2|msg]; [|lia].
    destruct (_ && _); simpl; lia.
  - repeat case_bool_decide; lia.
Qed.

Lemma probe_run_waited (p : string) (maxAttempts : nat) (snaps : list FS) :
  forall (d0 : FS) (pr : probe) (waited t : Z) (b : bool),
    stat_linked p d0 pr -> loop_wait pr ->
    probe_run p maxAttempts pr waited snaps = Some (b, t) ->
    waited <= t <= waited + wait_budget maxAttempts pr
    /\ (b = true -> waited + 500 <= t).
Proof.
  induction snaps as [|d rest IH]; intros d0 pr waited t b Hlink Hwait Hrun.
  - destruct pr as [b'|ms k attempt]; simpl in *; [|discriminate].
    injection Hrun as <- <-. subst b'. split; [lia|discriminate].
  - destruct pr as [b'|ms k attempt].
    + simpl in *. injection Hrun as <- <-. subst b'. split; [lia|discriminate].
    + simpl in Hrun.
      pose proof (isFileStable_wake_budget d p maxAttempts ms k attempt) as Hb.
      assert (Hms : 500 <= ms) by (simpl in Hwait; lia).
      destruct (isFileStable_wake_linked p d0 d maxAttempts ms k attempt Hlink)
        as [[Htrue _]|[Hlink' Hwait']].
      * rewrite Htrue in *. rewrite probe_run_return in Hrun.
        injection Hrun as <- <-.
        change (wait_budget maxAttempts (Return true)) with 0 in Hb.
        split; lia.
      * destruct (IH d _ _ _ _ Hlink' Hwait' Hrun) as [Hrange Htrue].
        split; [lia|]. intros Hbt. specialize (Htrue Hbt). lia.
Qed.

(** X2. Whatever the disk does, [isFileStable] with [maxAttempts] attempts
    has waited at most [1500 * maxAttempts - 1000] milliseconds when it
    returns (3500ms for the default three attempts), and at least 500ms when
    it returns true. *)
Theorem isFileStable_wait_bounds (snaps : list FS) (p : string)
    (maxAttempts : nat) (b : bool) (t : Z) :
  (1 <= maxAttempts)%nat ->
  isFileStable snaps p maxAttempts = Some (b, t) ->
  0 <= t <= 1500 * Z.of_nat maxAttempts - 1000
  /\ (b = true -> 500 <= t).
Proof.
  intros Hmax. destruct snaps as [|d0 rest]; [discriminate|].
  unfold isFileStable, isFileStable_start. intros Hrun.
  destruct (loop_head_linked p d0 maxAttempts 1) as [Hlink Hwait].
  destruct (probe_run_waited p maxAttempts rest d0 _ 0 t b Hlink Hwait Hrun)
    as [Hrange Htrue].
  pose proof (loop_head_budget d0 p maxAttempts 1) as Hb.
  rewrite bool_decide_eq_true_2 in Hb by done.
  split; [lia|]. intros Hbt. specialize (Htrue Hbt). lia.
Qed.

(** ** The lock registry *)

Lemma updateRelatedHashes_lock_view (a b : string) (w : World) :
  lock_view (updateRelatedHashes a b w) = lock_view w.
Proof.
  destruct (updateRelatedHashes_cases a b w) as [->|(h & _ & _ & _ & ->)];
    reflexivity.
Qed.

Lemma stretch_lock_view (fr : frame) (p : probe) (w : World) :
  lock_view (stretch fr p w).2 = lock_view w.
Proof.
  destruct p as [[|]|ms k attempt].
  - destruct (stretch_stable fr w) as (r & w1 & Heff & ->).
    inversion Heff as [Hch|d1 d2 Hch Hdir Hcp|d1 e Hch Hdir]; subst;
      try reflexivity.
    exact (updateRelatedHashes_lock_view _ _ (with_disk d2 w)).
  - reflexivity.
  - reflexivity.
Qed.

Lemma isFileLocked_view (f : string) (w w' : World) :
  lock_view w' = lock_view w -> isFileLocked f w' = isFileLocked f w.
Proof. unfold lock_view, isFileLocked. intros [= -> ->]. done. Qed.

Lemma lockFile_locked (f : string) (w : World) :
  isFileLocked f (lockFile f w) = true.
Proof.
  clear md5_hex_length.
  unfold isFileLocked, lockFile. simpl.
  rewrite bool_decide_eq_true_2 by set_solver. done.
Qed.

Lemma performSync_blocked (P : string) (D : direction) (w : World) :
  isFileLocked (path_resolve P) w = true ->
  performSync P D w = (Ok Blocked, release (path_resolve P) w).
Proof. intros Hl. rewrite performSync_stretch. cbv zeta. by rewrite Hl. Qed.

Lemma handleFileChange_locked (f : string) (w : World) :
  isFileLocked (path_resolve f) w = true -> handleFileChange f w = w.
Proof. intros Hl. unfold handleFileChange. by rewrite Hl. Qed.

(** X3. Every call of [performSync] leaves its path locked. A further call
    for the same path, in either direction, made in that world ends at the
    lock check, and a watcher event for the path is dropped. *)
Theorem performSync_locks_the_path (P : string) (D : direction) (w : World) :
  let f := path_resolve P in
  let w1 := (performSync P D w).2 in
  isFileLocked f w1 = true
  /\ (forall P' D', path_resolve P' = f ->
        (performSync P' D' w1).1 = Ok Blocked)
  /\ (forall f', path_resolve f' = f -> handleFileChange f' w1 = w1).
Proof.
  cbv zeta.
  assert (Hl : isFileLocked (path_resolve P) (performSync P D w).2 = true).
  { rewrite performSync_stretch. cbv zeta.
    destruct (isFileLocked (path_resolve P) w) eqn:Hw.
    - rewrite <- Hw. by apply isFileLocked_view.
    - rewrite (isFileLocked_view _ (lockFile (path_resolve P) w))
        by apply stretch_lock_view.
      apply lockFile_locked. }
  split; [exact Hl|]. split.
  - intros P' D' HP'. rewrite performSync_blocked; [done|by rewrite HP'].
  - intros f' Hf'. apply handleFileChange_locked. by rewrite Hf'.
Qed.

(** X4. A call of [performSync] for a path that is locked copies nothing and
    takes no lock, yet its [finally] block still registers the release
    timer: when that timer runs a second later, the path leaves
    [syncingFiles] (and stays in [recentlySynced]), whoever holds the
    lock. *)
Theorem performSync_blocked_still_releases (P : string) (D : direction)
    (w : World) :
  isFileLocked (path_resolve P) w = true ->
  performSync P D w = (Ok Blocked, release (path_resolve P) w)
  /\ let w2 := exec (Fire (next_timer w))
                 (exec (Tick 1000) (performSync P D w).2) in
     syncingFiles (mgr w2) = syncingFiles (mgr w) ∖ {[path_resolve P]}
     /\ recentlySynced (mgr w2) = recentlySynced (mgr w)
     /\ same_store w w2.
Proof.
  intros Hl. rewrite (performSync_blocked P D w Hl).
  split; [reflexivity|]. cbv zeta. unfold exec, release, setTimeout. simpl.
  rewrite lookup_insert_eq. simpl.
  destruct (Z.leb_spec (clock w + 1000) (clock w + 1000)); [|lia].
  simpl. repeat split; reflexivity.
Qed.

(** X5. The life of a lock when nothing else touches it: right after
    [lockFile] the path is locked; the auto-unlock timer cannot run before
    10 seconds have passed; when it runs the path leaves [syncingFiles] but
    is still locked through [recentlySynced]; five seconds later the second
    timer removes it from there and the path is free. *)
Theorem lockFile_expires (p : string) (w : World) :
  let w1 := lockFile p w in
  let w2 := exec (Fire (next_timer w)) (exec (Tick 10000) w1) in
  let w3 := exec (Fire (S (next_timer w))) (exec (Tick 5000) w2) in
  isFileLocked p w1 = true
  /\ (forall dt, dt < 10000 ->
        exec (Fire (next_timer w)) (exec (Tick dt) w1) = exec (Tick dt) w1)
  /\ (p ∉ syncingFiles (mgr w2))
  /\ isFileLocked p w2 = true
  /\ isFileLocked p w3 = false.
Proof.
  clear md5_hex_length.
  cbv zeta. split; [apply lockFile_locked|]. split.
  - intros dt Hdt. unfold exec, lockFile, setTimeout.
    destruct (Z.leb_spec 0 dt); simpl; rewrite lookup_insert_eq; simpl.
    + destruct (Z.leb_spec (clock w + 10000) (clock w + dt)); [lia|done].
    + destruct (Z.leb_spec (clock w + 10000) (clock w)); [lia|done].
  - unfold exec, lockFile, unlockFile, setTimeout, isFileLocked. simpl.
    rewrite lookup_insert_eq. simpl.
    destruct (Z.leb_spec (clock w + 10000) (clock w + 10000)); [|lia].
    simpl. rewrite lookup_insert_eq. simpl.
    destruct (Z.leb_spec (clock w + 10000 + 5000) (clock w + 10000 + 5000));
      [|lia].
    simpl. split; [set_solver|]. split.
    + rewrite (bool_decide_eq_true_2 (p ∈ ({[p]} ∪ recentlySynced (mgr w))))
        by set_solver.
      apply orb_true_r.
    + rewrite !bool_decide_eq_false_2 by set_solver. done.
Qed.

(** ** A whole sync *)










(** ** After [cleanup] *)

Lemma exec_pending_empty (a : action) (w : World) :
  is_watch a = false ->
  pendingOperations (mgr w) = ∅ ->
  pendingOperations (mgr (exec a w)) = ∅.
Proof.
  intros Ha Hp. destruct a as [dt|d|f|id|]; try discriminate; unfold exec.
  - by destruct (0 <=? dt).
  - exact Hp.
  - destruct (timers w !! id) as [[due0 c]|]; [|exact Hp].
    destruct (_ <=? _); [|exact Hp]. simpl cb.
    destruct c as [f|f|f d key|fr k attempt]; unfold run_callback.
    + rewrite (apt_pending _ _ (unlockFile_apt f (clearTimeout id w))).
      exact Hp.
    + exact Hp.
    + change (pendingOperations (mgr (with_mgr ?m _)))
        with (pendingOperations m).
      change (pendingOperations (with_pendingOperations ?x _)) with x.
      rewrite (apt_pending _ _ (performSync_apt f d (clearTimeout id w))).
      change (pendingOperations (mgr (clearTimeout id w)))
        with (pendingOperations (mgr w)).
      rewrite Hp. apply delete_empty.
    + rewrite performSync_resume_stretch.
      rewrite (apt_pending _ _ (stretch_apt fr _ (clearTimeout id w))).
      exact Hp.
  - reflexivity.
Qed.

Lemma hands_off_none_pending (p : string) (d : direction) (a : action)
    (w : World) :
  pending_consistent w ->
  pendingOperations (mgr w) = ∅ ->
  hands_off p d a w = false.
Proof.
  intros Hpc Hp. destruct a as [| | |id|]; try reflexivity. simpl.
  destruct (timers w !! id) as [[due0 c]|] eqn:Ht; [|reflexivity].
  apply andb_false_iff. right. apply bool_decide_eq_false. simpl. intros ->.
  pose proof (pc_timer _ _ Hpc _ _ _ _ _ Ht) as Hk.
  rewrite Hp, lookup_empty in Hk. discriminate.
Qed.

Lemma no_handoff_while_none_pending (p : string) (d : direction)
    (tr : list action) :
  forall w,
    forallb (fun a => negb (is_watch a)) tr = true ->
    pending_consistent w ->
    pendingOperations (mgr w) = ∅ ->
    handoffs p d tr w = 0%nat /\ pendingOperations (mgr (run tr w)) = ∅.
Proof.
  induction tr as [|a tr IH]; intros w Htr Hpc Hp; [done|].
  simpl in Htr. apply andb_true_iff in Htr as [Ha Htr].
  apply negb_true_iff in Ha.
  simpl. rewrite (hands_off_none_pending p d a w Hpc Hp).
  apply IH; [exact Htr|by apply exec_consistent|by apply exec_pending_empty].
Qed.

(** X8. In every world the engine can reach, once [cleanup] has run and as
    long as the watcher reports nothing any more, whatever timers still fire
    and whatever time passes, no debounce closure runs: nothing is handed to
    [performSync] for any path and direction, and [pendingOperations] stays
    empty. A second [cleanup] changes nothing. *)
Theorem no_sync_starts_after_cleanup (source target : string)
    (files : list string) (d0 : FS) (now : Z) (tr0 tr : list action)
    (p : string) (d : direction) :
  let w := cleanup (run tr0 (setupUnifiedWatcher source target files d0 now)) in
  forallb (fun a => negb (is_watch a)) tr = true ->
  handoffs p d tr w = 0%nat
  /\ pendingOperations (mgr (run tr w)) = ∅
  /\ cleanup w = w.
Proof.
  cbv zeta. intros Htr.
  set (w0 := run tr0 _).
  assert (Hpc : pending_consistent (cleanup w0))
    by apply cleanup_consistent, run_consistent, setup_consistent.
  destruct (no_handoff_while_none_pending p d tr (cleanup w0) Htr Hpc eq_refl)
    as [Hh Hp].
  split; [exact Hh|]. split; [exact Hp|].
  unfold cleanup at 1. cbv zeta.
  change (pendingOperations (mgr (cleanup w0))) with (∅ : gmap string nat).
  rewrite map_fold_empty. reflexivity.
Qed.

(** ** The store at startup and its time stamps *)

Lemma initializeFileHashes_store (files : list string) :
  forall w,
    let w' := initializeFileHashes files w in
    disk w' = disk w /\ clock w' = clock w
    /\ forall p,
         let h := getFileHash (disk w) p in
         fileHashes (mgr w') !! p
         = (if bool_decide (p ∈ files) && truthy h then Some h
            else fileHashes (mgr w) !! p)
         /\ lastSyncTime (mgr w') !! p
            = (if bool_decide (p ∈ files) && truthy h then Some (clock w)
               else lastSyncTime (mgr w) !! p).
Proof.
  clear md5_hex_length.
  induction files as [|f files IH]; intros w; cbv zeta.
  - repeat split; reflexivity.
  - destruct (IH (updateFileHash f w)) as (Hd & Hc & Hp).
    assert (Hd1 : disk (updateFileHash f w) = disk w)
      by (unfold updateFileHash; by case_match).
    assert (Hc1 : clock (updateFileHash f w) = clock w)
      by (unfold updateFileHash; by case_match).
    change (initializeFileHashes (f :: files) w)
      with (initializeFileHashes files (updateFileHash f w)).
    split; [congruence|]. split; [congruence|].
    intros p. destruct (Hp p) as [Hh Ht]. cbv zeta in Hh, Ht.
    rewrite Hd1 in Hh, Ht. rewrite Hc1 in Ht. rewrite Hh, Ht.
    destruct (decide (p ∈ files)) as [Hin|Hnin].
    + rewrite !bool_decide_eq_true_2 by set_solver. simpl.
      destruct (truthy (getFileHash (disk w) p)) eqn:Htr; [done|].
      unfold updateFileHash.
      destruct (truthy (getFileHash (disk w) f)) eqn:Hf; [|done]. simpl.
      rewrite !lookup_insert_ne; [done|intros ->; congruence..].
    + rewrite (bool_decide_eq_false_2 (p ∈ files)) by done. simpl.
      destruct (decide (p = f)) as [->|Hne].
      * rewrite bool_decide_eq_true_2 by set_solver. simpl.
        unfold updateFileHash.
        destruct (truthy (getFileHash (disk w) f)) eqn:Hf; [|done]. simpl.
        by rewrite !lookup_insert_eq.
      * rewrite bool_decide_eq_false_2 by set_solver. simpl.
        unfold updateFileHash.
        destruct (truthy (getFileHash (disk w) f)) eqn:Hf; [|done]. simpl.
        by rewrite !lookup_insert_ne.
Qed.

Lemma truthy_getFileHash (d : FS) (p : string) :
  truthy (getFileHash d p) = true <-> readable_file d p.
Proof.
  split.
  - intros (h & Hh & _)%truthy_present.
    apply getFileHash_present in Hh as (content & m & Hp & _).
    by exists content, m.
  - intros (content & m & Hp).
    rewrite (getFileHash_readable _ _ _ _ Hp). apply md5_truthy.
Qed.

(** X9. The store right after startup. A path has a fingerprint exactly when
    the directory walk listed it and it is a readable file, the fingerprint
    is the digest of its content, and it is stamped with the time of the
    startup. So right after startup the paths that count as changed are
    exactly the readable files that the walk did not list. *)
Theorem startup_store (source target : string) (files : list string) (d : FS)
    (now : Z) (p : string) :
  let w := setupUnifiedWatcher source target files d now in
  (forall v, fileHashes (mgr w) !! p = Some v
             <-> p ∈ files
                 /\ exists content m, d !! p = Some (File content m true)
                                      /\ v = JStr (md5 content))
  /\ (forall t, lastSyncTime (mgr w) !! p = Some t
                <-> p ∈ files /\ readable_file d p /\ t = now)
  /\ (hasFileChanged p w = true <-> (p ∉ files) /\ readable_file d p).
Proof.
  cbv zeta. unfold setupUnifiedWatcher.
  set (w0 := mkWorld d now ∅ 0%nat (new_SyncManager source target) []).
  destruct (initializeFileHashes_store files w0) as (Hd & Hc & Hp).
  destruct (Hp p) as [Hh Ht]. cbv zeta in Hh, Ht.
  change (disk w0) with d in *. change (clock w0) with now in *.
  change (fileHashes (mgr w0)) with (∅ : gmap string jsval) in Hh.
  change (lastSyncTime (mgr w0)) with (∅ : gmap string Z) in Ht.
  rewrite lookup_empty in Hh. rewrite lookup_empty in Ht.
  pose proof (truthy_getFileHash d p) as Htruthy.
  split; [|split].
  - intros v. rewrite Hh. split.
    + destruct (bool_decide (p ∈ files)) eqn:Hin; [|discriminate].
      destruct (truthy (getFileHash d p)) eqn:Htr; [|discriminate].
      simpl. intros [= <-]. apply bool_decide_eq_true in Hin.
      split; [exact Hin|].
      apply truthy_present in Htr as (h & Hv & _).
      destruct (getFileHash_present _ _ _ Hv) as (content & m & Hf & ->).
      by exists content, m.
    + intros (Hin & content & m & Hf & ->).
      rewrite bool_decide_eq_true_2 by done.
      rewrite (getFileHash_readable _ _ _ _ Hf), md5_truthy. done.
    - intros t. rewrite Ht. split.
    + destruct (bool_decide (p ∈ files)) eqn:Hin; [|discriminate].
      destruct (truthy (getFileHash d p)) eqn:Htr; [|discriminate].
      simpl. intros [= <-]. apply bool_decide_eq_true in Hin.
      split; [exact Hin|]. split; [by apply Htruthy|done].
    + intros (Hin & Hr & ->). apply Htruthy in Hr.
      by rewrite bool_decide_eq_true_2, Hr.
  - destruct (getFileHash_cases d p) as [Hn|[content Hc']].
    + rewrite hasFileChanged_absent by (by rewrite Hd).
      split; [discriminate|]. intros [_ Hr]. apply Htruthy in Hr.
      rewrite Hn in Hr. discriminate.
    + rewrite (hasFileChanged_present p (md5 content)) by (by rewrite Hd).
      rewrite Hh, Hc', md5_truthy, andb_true_r.
      assert (Hr : readable_file d p)
        by (apply Htruthy; rewrite Hc'; apply md5_truthy).
      destruct (decide (p ∈ files)) as [Hin|Hnin].
      * rewrite (bool_decide_eq_true_2 (p ∈ files)) by done.
        rewrite (bool_decide_eq_true_2 (_ = _)) by done.
        split; [discriminate|]. by intros [? _].
      * rewrite (bool_decide_eq_false_2 (p ∈ files)) by done.
        rewrite bool_decide_eq_false_2 by done. done.
Qed.

Lemma store_step_stamps (t0 : Z) (w w' : World) :
  store_step w w' -> clock w' = clock w ->
  stamps_ok t0 w -> stamps_ok t0 w'.
Proof.
  intros Hstep Hc [H0 Hall].
  assert (Hsame : lastSyncTime (mgr w') = lastSyncTime (mgr w) ->
                  fileHashes (mgr w') = fileHashes (mgr w) ->
                  stamps_ok t0 w').
  { intros E3 E2. split; [lia|]. intros p. rewrite E2, E3, Hc. apply Hall. }
  destruct Hstep as [E1 E2 E3|dir E0 E1 E2 E3|src tgt d1 d2 Hdir Hcp E1 E2 E3];
    [by apply Hsame..|].
  destruct (updateRelatedHashes_cases src tgt (with_disk d2 w))
    as [Heq|(h & _ & _ & _ & Heq)]; rewrite Heq in E2, E3;
    [by apply Hsame|].
  split; [lia|]. intros p. rewrite E2, E3, Hc. simpl.
  destruct (Hall p) as [Hdom Hrange].
  rewrite !lookup_insert. repeat case_decide; try done.
  all: split; [done|]; intros t [= <-]; lia.
Qed.

Lemma store_step_stamped (p : string) (t : Z) (w w' : World) :
  store_step w w' -> clock w' = clock w ->
  stamped_since p t w -> stamped_since p t w'.
Proof.
  intros Hstep Hc (t' & Hp & Ht).
  assert (Hsame : lastSyncTime (mgr w') = lastSyncTime (mgr w) ->
                  stamped_since p t w').
  { intros E3. exists t'. rewrite E3, Hc. done. }
  destruct Hstep as [E1 E2 E3|dir E0 E1 E2 E3|src tgt d1 d2 Hdir Hcp E1 E2 E3];
    [by apply Hsame..|].
  destruct (updateRelatedHashes_cases src tgt (with_disk d2 w))
    as [Heq|(h & _ & _ & _ & Heq)]; rewrite Heq in E3;
    [by apply Hsame|].
  unfold stamped_since. rewrite E3, Hc. simpl.
  rewrite !lookup_insert. repeat case_decide; eauto with lia.
Qed.

Lemma exec_stamps (t0 : Z) (a : action) (w : World) :
  stamps_ok t0 w -> stamps_ok t0 (exec a w).
Proof.
  intros Hs.
  assert (Hengine : (forall d, a <> External d) -> (forall dt, a <> Tick dt) ->
                    stamps_ok t0 (exec a w)).
  { intros Hext Htick. apply (store_step_stamps t0 w); [|by rewrite exec_clock; destruct a; try lia; by destruct (Htick dt)|exact Hs].
    by apply exec_store_step. }
  destruct a as [dt|d|f|id|]; try (apply Hengine; intros; discriminate).
  - destruct Hs as [H0 Hall]. unfold exec.
    destruct (Z.leb_spec 0 dt); [|by split]. split; [simpl; lia|].
    intros p. destruct (Hall p) as [Hdom Hrange]. split; [exact Hdom|].
    intros t Ht. apply Hrange in Ht. simpl. lia.
  - exact Hs.
Qed.

Lemma exec_stamped (p : string) (t : Z) (a : action) (w : World) :
  stamped_since p t w -> stamped_since p t (exec a w).
Proof.
  intros Hs.
  assert (Hengine : (forall d, a <> External d) -> (forall dt, a <> Tick dt) ->
                    stamped_since p t (exec a w)).
  { intros Hext Htick. apply (store_step_stamped p t w); [|by rewrite exec_clock; destruct a; try lia; by destruct (Htick dt)|exact Hs].
    by apply exec_store_step. }
  destruct a as [dt|d|f|id|]; try (apply Hengine; intros; discriminate).
  - destruct Hs as (t' & Hp & Ht). unfold exec.
    destruct (Z.leb_spec 0 dt); [|by exists t'].
    exists t'. split; [exact Hp|]. simpl. lia.
  - exact Hs.
Qed.

Lemma run_stamped (p : string) (t : Z) (tr : list action) (w : World) :
  stamped_since p t w -> stamped_since p t (run tr w).
Proof.
  revert w. induction tr as [|a tr IH]; intros w Hs; [exact Hs|].
  apply IH, exec_stamped, Hs.
Qed.

Lemma run_clock (tr : list action) (w : World) :
  clock (run tr w) = clock w + elapsed tr.
Proof.
  revert w. induction tr as [|a tr IH]; intros w; [simpl; lia|].
  change (run (a :: tr) w) with (run tr (exec a w)).
  rewrite IH, exec_clock. destruct a; simpl; lia.
Qed.

Lemma run_stamps (t0 : Z) (tr : list action) (w : World) :
  stamps_ok t0 w -> stamps_ok t0 (run tr w).
Proof.
  revert w. induction tr as [|a tr IH]; intros w Hw; [exact Hw|].
  apply IH, exec_stamps, Hw.
Qed.

Lemma setup_stamps (source target : string) (files : list string) (d : FS)
    (now : Z) :
  stamps_ok now (setupUnifiedWatcher source target files d now).
Proof.
  unfold setupUnifiedWatcher.
  set (w0 := mkWorld d now ∅ 0%nat (new_SyncManager source target) []).
  destruct (initializeFileHashes_store files w0) as (Hd & Hc & Hp).
  split; [rewrite Hc; simpl; lia|].
  intros p. destruct (Hp p) as [Hh Ht]. cbv zeta in Hh, Ht.
  rewrite Hh, Ht, Hc. simpl. rewrite !lookup_empty.
  destruct (_ && _); split; try done. intros t [= <-]. lia.
Qed.

(** X10. The time stamps of the store. In every world the engine can reach,
    a path has a time stamp exactly when it has a fingerprint, every stamp
    was taken between the startup and now, and a stamp is never removed or
    moved back: whatever happens next, the path keeps a stamp that is not
    older. *)
Theorem lastSyncTime_invariant (source target : string) (files : list string)
    (d : FS) (now : Z) (tr : list action) :
  let w := run tr (setupUnifiedWatcher source target files d now) in
  stamps_ok now w
  /\ forall p t tr',
       lastSyncTime (mgr w) !! p = Some t ->
       stamped_since p t (run tr' w).
Proof.
  cbv zeta.
  assert (Hs : stamps_ok now
                 (run tr (setupUnifiedWatcher source target files d now)))
    by apply run_stamps, setup_stamps.
  split; [exact Hs|].
  intros p t tr' Hp. apply run_stamped. exists t. split; [exact Hp|].
  destruct Hs as [_ Hall]. destruct (Hall p) as [_ Hrange].
  specialize (Hrange t Hp). lia.
Qed.

(** X11. The window after startup. For a readable file that the directory
    walk listed, and a startup at a time other than 0: during the first
    3000ms the handler drops every watcher event for it, whatever happened
    to the file in between. An edit made in this window is not synced by
    the event it raises. *)
Theorem startup_window_drops_events (source target : string)
    (files : list string) (d : FS) (now : Z) (tr : list action) (f : string) :
  let w := setupUnifiedWatcher source target files d now in
  0 < now ->
  path_resolve f ∈ files ->
  readable_file d (path_resolve f) ->
  elapsed tr < 3000 ->
  handleFileChange f (run tr w) = run tr w.
Proof.
  cbv zeta. intros Hnow Hin Hr Hel.
  set (w := setupUnifiedWatcher source target files d now).
  assert (Hst : stamped_since (path_resolve f) now w).
  { exists now. split; [|split; [lia|]].
    - unfold w, setupUnifiedWatcher.
      set (w0 := mkWorld d now ∅ 0%nat (new_SyncManager source target) []).
      destruct (initializeFileHashes_store files w0) as (_ & _ & Hp).
      destruct (Hp (path_resolve f)) as [_ Ht]. cbv zeta in Ht.
      rewrite Ht, bool_decide_eq_true_2 by done.
      change (disk w0) with d.
      by rewrite (proj2 (truthy_getFileHash d _) Hr).
    - unfold w, setupUnifiedWatcher.
      set (w0 := mkWorld d now ∅ 0%nat (new_SyncManager source target) []).
      destruct (initializeFileHashes_store files w0) as (_ & -> & _).
      simpl. lia. }
  assert (Hc : clock (run tr w) = now + elapsed tr).
  { rewrite run_clock. f_equal.
    unfold w, setupUnifiedWatcher.
    set (w0 := mkWorld d now ∅ 0%nat (new_SyncManager source target) []).
    by destruct (initializeFileHashes_store files w0) as (_ & -> & _). }
  destruct (run_stamped _ _ tr w Hst) as (t' & Hp & Ht).
  unfold handleFileChange.
  destruct (isFileLocked _ _); [reflexivity|].
  assert (Hrecent : wasRecentlyModified (path_resolve f) 3000 (run tr w) = true).
  { unfold wasRecentlyModified. rewrite Hp.
    apply andb_true_iff. split.
    - apply negb_true_iff, Z.eqb_neq. lia.
    - apply Z.ltb_lt. lia. }
  by rewrite Hrecent.
Qed.

(** ** Waiting for WordPress *)

Lemma checkWordPress_spec (maxAttempts : nat) (curl : list bool) :
  forall st,
    (wp_attempts st < maxAttempts)%nat ->
    match checkWordPress maxAttempts curl st with
    | None =>
        (wp_attempts st + length curl < maxAttempts)%nat
        /\ Forall (fun error => error = true) curl
    | Some st' =>
        exists k : nat,
          wp_attempts st' = S (wp_attempts st + k)
          /\ (wp_attempts st' <= maxAttempts)%nat
          /\ wp_waited st' = wp_waited st + 1000 * Z.of_nat k
          /\ (forall i, (i < k)%nat -> curl !! i = Some true)
          /\ ((curl !! k = Some false
               /\ wp_console st' = (wp_console st ++ [LogResponding])%list)
              \/ (curl !! k = Some true
                  /\ wp_attempts st' = maxAttempts
                  /\ wp_console st' = (wp_console st ++ [LogSlow])%list))
    end.
Proof.
  induction curl as [|error rest IH]; intros st Hlt.
  - simpl. split; [lia|constructor].
  - cbn [checkWordPress]. destruct error.
    + destruct (Nat.leb_spec maxAttempts (S (wp_attempts st))) as [Hge|Hless].
      * exists 0%nat. simpl. repeat split; try lia.
        right. repeat split. lia.
      * specialize (IH (mkWp (S (wp_attempts st))
                          (SpWaiting (S (wp_attempts st)) maxAttempts)
                          (wp_console st) (wp_waited st + 1000)) Hless).
        destruct (checkWordPress maxAttempts rest _) as [st'|].
        -- destruct IH as (k & Ha & Hle & Hw & Hpre & Hend).
           simpl in Ha, Hw, Hend. exists (S k).
           split; [lia|]. split; [exact Hle|]. split; [lia|].
           split; [|exact Hend].
           intros [|i] Hi; [reflexivity|]. apply Hpre. lia.
        -- destruct IH as [Hlen Hall]. simpl in Hlen. split; [simpl; lia|].
           by constructor.
    + exists 0%nat. simpl. repeat split; try lia. by left.
Qed.

(** X12. [waitForWordPress] listed by what [curl] reports. The promise stays
    pending only while fewer than 30 calls have ended, all of them with an
    error. Otherwise it resolves, and never rejects: at the first call that
    succeeds, or at the 30th failing call. When it resolves at call [n + 1],
    the calls before all failed, the timers waited [3000 + 1000 * n]
    milliseconds (at most 32000), and one line was printed that tells the
    two ways apart. *)
Theorem waitForWordPress_spec (curl : list bool) :
  match waitForWordPress curl with
  | None =>
      (length curl < 30)%nat /\ Forall (fun error => error = true) curl
  | Some st =>
      exists n : nat,
        wp_attempts st = S n /\ (n < 30)%nat
        /\ wp_waited st = 3000 + 1000 * Z.of_nat n
        /\ (forall i, (i < n)%nat -> curl !! i = Some true)
        /\ ((curl !! n = Some false /\ wp_console st = [LogResponding])
            \/ (curl !! n = Some true /\ n = 29%nat
                /\ wp_console st = [LogSlow]))
  end.
Proof.
  unfold waitForWordPress.
  pose proof (checkWordPress_spec 30 curl (mkWp 0 SpReady [] 3000)) as H.
  specialize (H ltac:(simpl; lia)).
  destruct (checkWordPress 30 curl _) as [st|]; [|exact H].
  destruct H as (k & Ha & Hle & Hw & Hpre & Hend). simpl in Ha, Hw, Hend.
  exists k. split; [exact Ha|]. split; [lia|]. split; [exact Hw|].
  split; [exact Hpre|].
  destruct Hend as [Hok|(He & Hmax & Hc)]; [by left|].
  right. split; [exact He|]. split; [lia|exact Hc].
Qed.

(** ** From a watcher event to the copy *)



End Properties.


(** * The properties on the concrete session *)

Lemma fit_length (n : nat) (s : string) : String.length (Posix.fit n s) = n.
Proof.
  revert s. induction n as [|n IH]; intros s; [reflexivity|].
  destruct s as [|c s]; simpl; by rewrite IH.
Qed.

Lemma digest_length (content : string) :
  String.length (Posix.digest content) = 32%nat.
Proof. apply fit_length. Qed.



(** C3 on the session: after the copy both files hash to the digest of "A",
    and the pair is recorded. *)
Lemma updateRelatedHashes_commits_iff_witness :
  (forall content, String.length (Posix.digest content) = 32%nat)
  /\ updateRelatedHashes (platform := Posix.platform) Demo.css Demo.css_copy
       Demo.after_copy
     = record_pair Demo.css Demo.css_copy (Posix.digest "A") Demo.after_copy.
Proof.
  split; [exact digest_length|].
  apply (proj1 (updateRelatedHashes_commits_iff (platform := Posix.platform)
                  digest_length Demo.css Demo.css_copy Demo.after_copy));
    vm_compute; reflexivity.
Defined.

(** C4 on the session: once the copy is recorded, a further wake-up of
    [performSync] for the stylesheet finds it unchanged and writes nothing. *)
Lemma performSync_unchanged_is_noop_witness :
  hasFileChanged (platform := Posix.platform) (fr_source Demo.fr)
    Demo.after_copy = false
  /\ same_store Demo.after_copy
       (performSync_resume (platform := Posix.platform) Demo.fr
          (WakeSettle Demo.stats1) 1 Demo.after_copy).2.
Proof.
  assert (Hno : hasFileChanged (platform := Posix.platform) (fr_source Demo.fr)
                  Demo.after_copy = false) by (vm_compute; reflexivity).
  split; [exact Hno|].
  exact (proj1 (proj1 (performSync_unchanged_is_noop
                         (platform := Posix.platform) Demo.fr
                         (WakeSettle Demo.stats1) 1 Demo.after_copy Hno))).
Defined.


(** C6 on the session: three probes of the empty stylesheet use up the three
    attempts. *)
Lemma isFileStable_zero_size_consumes_attempt_witness :
  zero_size Demo.css Demo.empty
  /\ (1 <= 3)%nat
  /\ isFileStable [Demo.empty; Demo.empty; Demo.empty; Demo.full] Demo.css 3
     = Some (false, 1500).
Proof.
  assert (Hz : zero_size Demo.css Demo.empty).
  { exists 1, true. vm_compute. reflexivity. }
  assert (Hle : (1 <= 3)%nat) by lia.
  split; [exact Hz|]. split; [exact Hle|].
  exact (proj2 (isFileStable_zero_size_consumes_attempt Demo.css 3 1 Demo.empty
                  [] 0 Hz Hle) Demo.empty Demo.empty Demo.full Hz Hz).
Defined.

(** C6 as stated fails: were zero-size probes free, the file that is empty
    three times and then complete and unchanged would be found stable, as it
    is when probed without the empty phase. *)
Lemma isFileStable_zero_size_counterexample :
  isFileStable [Demo.empty; Demo.empty; Demo.empty; Demo.full; Demo.full]
    Demo.css 3 = Some (false, 1500)
  /\ isFileStable [Demo.full; Demo.full] Demo.css 3 = Some (true, 500).
Proof. split; vm_compute; reflexivity. Qed.

(** C8 as stated fails: [performSync] has locked the stylesheet and is
    waiting inside [isFileStable]; after [cleanup] the 10-second auto-unlock
    timer and the wake-up are still outstanding. *)
Lemma cleanup_leaves_lock_timers_counterexample :
  timers (cleanup Demo.locked) !! 1%nat
  = Some (mkTimer 12100 (CbUnlock Demo.css))
  /\ timers (cleanup Demo.locked) !! 2%nat
     = Some (mkTimer 2600 (CbResume Demo.fr (WakeSettle Demo.stats1) 1))
  /\ timers (cleanup Demo.locked) <> ∅.
Proof.
  assert (H1 : timers (cleanup Demo.locked) !! 1%nat
               = Some (mkTimer 12100 (CbUnlock Demo.css)))
    by (vm_compute; reflexivity).
  split; [exact H1|]. split; [vm_compute; reflexivity|].
  intros Hempty. rewrite Hempty, lookup_empty in H1. discriminate H1.
Qed.

(** C10 on the session: the stylesheet was not hashed at start, so its first
    event passes the change check. *)
Lemma hasFileChanged_unknown_path_witness :
  fileHashes (mgr Demo.boot) !! Demo.css = None
  /\ disk Demo.boot !! Demo.css = Some (File "A" 5 true)
  /\ hasFileChanged (platform := Posix.platform) Demo.css Demo.boot = true.
Proof.
  assert (Hstore : fileHashes (mgr Demo.boot) !! Demo.css = None)
    by (vm_compute; reflexivity).
  assert (Hfile : disk Demo.boot !! Demo.css = Some (File "A" 5 true))
    by (vm_compute; reflexivity).
  split; [exact Hstore|]. split; [exact Hfile|].
  exact (hasFileChanged_unknown_path (platform := Posix.platform) Demo.css "A" 5
           Demo.boot Hstore Hfile).
Defined.

(** X1 on the session: the stylesheet is found stable on two equal
    snapshots, so two consecutive snapshots show the same non-empty file. *)
Lemma isFileStable_true_needs_equal_stats_witness :
  isFileStable [Demo.full; Demo.full] Demo.css 3 = Some (true, 500)
  /\ exists i d d' s,
       [Demo.full; Demo.full] !! i = Some d
       /\ [Demo.full; Demo.full] !! S i = Some d'
       /\ fs.statSync d Demo.css = Ok s
       /\ fs.statSync d' Demo.css = Ok s
       /\ st_size s <> 0.
Proof.
  assert (H : isFileStable [Demo.full; Demo.full] Demo.css 3 = Some (true, 500))
    by (vm_compute; reflexivity).
  split; [exact H|].
  exact (isFileStable_true_needs_equal_stats [Demo.full; Demo.full] Demo.css 3
           500 H).
Defined.

(** X2 on the session: the empty stylesheet costs three waits of 500ms. *)
Lemma isFileStable_wait_bounds_witness :
  (1 <= 3)%nat
  /\ isFileStable [Demo.empty; Demo.empty; Demo.empty; Demo.full] Demo.css 3
     = Some (false, 1500)
  /\ 0 <= 1500 <= 1500 * Z.of_nat 3 - 1000.
Proof.
  assert (Hle : (1 <= 3)%nat) by lia.
  assert (H : isFileStable [Demo.empty; Demo.empty; Demo.empty; Demo.full] Demo.css 3
              = Some (false, 1500)) by (vm_compute; reflexivity).
  split; [exact Hle|]. split; [exact H|].
  exact (proj1 (isFileStable_wait_bounds
                  [Demo.empty; Demo.empty; Demo.empty; Demo.full] Demo.css 3 false 1500
                  Hle H)).
Defined.

(** X4 on the session: the stylesheet is locked by the running sync; a second
    call ends at the lock check. *)
Lemma performSync_blocked_still_releases_witness :
  isFileLocked Demo.css Demo.locked = true
  /\ performSync (platform := Posix.platform) Demo.css SourceToTarget
       Demo.locked
     = (Ok Blocked, release Demo.css Demo.locked).
Proof.
  assert (Hl : isFileLocked Demo.css Demo.locked = true)
    by (vm_compute; reflexivity).
  split; [exact Hl|].
  exact (proj1 (performSync_blocked_still_releases (platform := Posix.platform)
                  Demo.css SourceToTarget Demo.locked Hl)).
Defined.



(** X8 on the session: [cleanup] runs while the sync of the stylesheet is
    waiting; the timers that are left fire, and nothing is handed off. *)
Lemma no_sync_starts_after_cleanup_witness :
  forallb (fun a => negb (is_watch a))
    [Tick 500; Fire 2%nat; Tick 10000; Fire 1%nat] = true
  /\ handoffs (platform := Posix.platform) Demo.css SourceToTarget
       [Tick 500; Fire 2%nat; Tick 10000; Fire 1%nat] (cleanup Demo.locked)
     = 0%nat.
Proof.
  assert (Htr : forallb (fun a => negb (is_watch a))
                  [Tick 500; Fire 2%nat; Tick 10000; Fire 1%nat] = true)
    by reflexivity.
  split; [exact Htr|].
  exact (proj1 (no_sync_starts_after_cleanup (platform := Posix.platform)
                  Demo.source Demo.target [] Demo.disk0 100
                  [Watch Demo.css; Tick 2000; Fire 0%nat]
                  [Tick 500; Fire 2%nat; Tick 10000; Fire 1%nat]
                  Demo.css SourceToTarget Htr)).
Defined.

(** X9 on the session: when the walk lists the stylesheet, the store holds
    its digest right after startup. *)
Lemma startup_store_witness :
  (forall content, String.length (Posix.digest content) = 32%nat)
  /\ fileHashes
       (mgr (setupUnifiedWatcher (platform := Posix.platform) Demo.source
               Demo.target [Demo.css] Demo.disk0 100)) !! Demo.css
     = Some (JStr (Posix.digest "A")).
Proof.
  split; [exact digest_length|].
  apply (proj2 (proj1 (startup_store (platform := Posix.platform)
                         digest_length Demo.source Demo.target [Demo.css]
                         Demo.disk0 100 Demo.css)
                  (JStr (Posix.digest "A")))).
  split; [apply list_elem_of_here|].
  exists "A", 5. split; vm_compute; reflexivity.
Defined.

(** X11 on the session: the walk lists the stylesheet; it is rewritten one
    second after startup and the event arrives a second later: the handler
    drops it. *)
Lemma startup_window_drops_events_witness :
  (forall content, String.length (Posix.digest content) = 32%nat)
  /\ 0 < 100
  /\ Demo.css ∈ [Demo.css]
  /\ readable_file Demo.disk0 Demo.css
  /\ elapsed [Tick 1000; External (<[Demo.css := File "B" 1100 true]> Demo.disk0);
              Tick 1000] < 3000
  /\ let w := run (platform := Posix.platform)
                [Tick 1000;
                 External (<[Demo.css := File "B" 1100 true]> Demo.disk0);
                 Tick 1000]
                (setupUnifiedWatcher (platform := Posix.platform) Demo.source
                   Demo.target [Demo.css] Demo.disk0 100) in
     handleFileChange (platform := Posix.platform) Demo.css w = w.
Proof.
  assert (Hnow : 0 < 100) by lia.
  assert (Hin : Demo.css ∈ [Demo.css]) by apply list_elem_of_here.
  assert (Hr : readable_file Demo.disk0 Demo.css)
    by (exists "A", 5; vm_compute; reflexivity).
  assert (Hel : elapsed [Tick 1000;
                         External (<[Demo.css := File "B" 1100 true]> Demo.disk0);
                         Tick 1000] < 3000) by reflexivity.
  split; [exact digest_length|]. split; [exact Hnow|]. split; [exact Hin|].
  split; [exact Hr|]. split; [exact Hel|].
  exact (startup_window_drops_events (platform := Posix.platform)
           digest_length Demo.source Demo.target [Demo.css] Demo.disk0 100
           [Tick 1000; External (<[Demo.css := File "B" 1100 true]> Demo.disk0);
            Tick 1000]
           Demo.css Hnow Hin Hr Hel).
Defined.

